(** * CommunityWatch: geo-bounded search, duplicate check, votes and reputation

    A shallow embedding of the request handlers of [app/routes.py] and of
    [app/ai_services.py] (both iterations, "Version 1" and "Version 2"),
    with the properties the specification states about them.

    Conventions of the embedding:
    - a Python [float] (and a numpy [float64]) is a binary64 value, Rocq's
      primitive [float]; comparisons are the IEEE ones, so every comparison
      with a NaN is [false];
    - a database table is a finite map from primary key to row ([gmap Z row]);
      a query returns the rows as a list of [(key, row)] pairs;
    - a nullable column is an [option];
    - a Python [dict] whose iteration order matters is an association list in
      insertion order;
    - a handler is a function from the database (and the request) to the new
      database and the response; code that may raise returns a [result]. *)

From Stdlib Require Import Floats ZArith Lia Ascii.
From stdpp Require Import base option list gmap strings.

Set Warnings "-register-all".

(** ** Python values the handlers rely on *)

(** Exceptions that the modelled code can meet. All of them are subclasses of
    Python's [Exception]. *)
Inductive exn : Type :=
  | ValueError (msg : string)       (* numpy: shapes not aligned *)
  | JSONDecodeError (msg : string)  (* json.loads on malformed text *)
  | AttributeError (msg : string)   (* attribute access on None or a non-dict *)
  | KeyError (msg : string)         (* indexing a dict with a missing key *)
  | ApiError (msg : string)         (* anything the Gemini client raises *)
  | InvalidRequestError (msg : string)  (* SQLAlchemy: a query it cannot load *)
  | IntegrityError (msg : string).  (* the database refuses a row at commit *)

(** The outcome of code that may raise. *)
Inductive result (A : Type) : Type :=
  | Ok (a : A)
  | Raise (e : exn).
Arguments Ok {A} a.
Arguments Raise {A} e.

Definition rbind {A B} (r : result A) (k : A → result B) : result B :=
  match r with
  | Ok a => k a
  | Raise e => Raise e
  end.

#[global] Instance result_ret : MRet result := λ A a, Ok a.
#[global] Instance result_bind : MBind result := λ A B k r, rbind r k.

(** JSON documents: what [json.loads] returns and [jsonify] sends. *)
Inductive json : Type :=
  | JNull
  | JBool (b : bool)
  | JInt (z : Z)
  | JFloat (f : float)
  | JStr (s : string)
  | JList (l : list json)
  | JDict (d : list (string * json)).

(** [x or 0] on an optional integer: [None] and [0] are falsy. *)
Definition or_zero (x : option Z) : Z := default 0%Z x.

(** ** Data model ([app/models.py])

    Columns that no modelled handler reads or writes (e-mail, password hash,
    timestamps) are left out. *)

Record User := mkUser {
  username : string;
  reputation_points : option Z;     (* db.Integer, default=0 *)
  is_moderator : bool
}.

Record Issue := mkIssue {
  category : string;
  description : string;
  latitude : float;
  longitude : float;
  location_text : option string;
  image_filename : option string;
  status : string;                  (* default='Reported' *)
  upvote_count : option Z;          (* db.Integer, default=0 *)
  embedding : option (list float);  (* nullable; never set on creation *)
  geojson : option json;
  reporter_id : Z
}.

Record Upvote := mkUpvote {
  voter_id : Z;
  issue_id : Z
}.

Record Notification := mkNotification {
  name : string;
  data : json;     (* the document given to [add_notification]; Version 1
                      keeps it as its [json.dumps] text *)
  user_id : Z
}.

Record Db := mkDb {
  users : gmap Z User;
  issues : gmap Z Issue;
  upvotes : gmap Z Upvote;
  notifications : list Notification
}.

(** A fresh primary key for a table (autoincrement). *)
Definition new_id {V} (table : gmap Z V) : Z := fresh (dom table).

(** ** 4.1 Geo-bounded candidate filter

    [Issue.latitude.between(lat - radius, lat + radius)] is SQL's
    [latitude BETWEEN lo AND hi], that is [lo <= latitude AND latitude <= hi];
    the two [between] of a [where] are joined by AND. The bounds are computed
    by the handler in floating point before the query is sent. *)

Definition between (x lo hi : float) : bool :=
  ((lo <=? x) && (x <=? hi))%float.

Definition in_box (lat lng radius : float) (i : Issue) : bool :=
  between (latitude i) (lat - radius) (lat + radius)
  && between (longitude i) (lng - radius) (lng + radius).

(** [db.session.scalars(select(Issue).where(P)).all()] *)
Definition select_issues (P : Issue → bool) (d : Db) : list (Z * Issue) :=
  filter (λ row, P row.2 = true) (map_to_list (issues d)).

(** The radius of [search] (0.05) and of [check_duplicates] (0.001), as the
    binary64 values Python reads these literals to. *)
Definition search_radius : float := 0x1.999999999999ap-5%float.
Definition duplicate_radius : float := 0x1.0624dd2f1a9fcp-10%float.

Definition geo_candidates (d : Db) (lat lng radius : float) : list (Z * Issue) :=
  select_issues (in_box lat lng radius) d.

(** ** Python strings and dictionaries *)

(** ASCII white space, as [str.isspace] sees it. *)
Definition is_space (c : ascii) : bool :=
  let n := nat_of_ascii c in
  ((9 <=? n) && (n <=? 13) || (28 <=? n) && (n <=? 32))%nat.

Fixpoint lstrip (s : string) : string :=
  match s with
  | String c s' => if is_space c then lstrip s' else s
  | EmptyString => EmptyString
  end.

Fixpoint rstrip (s : string) : string :=
  match s with
  | EmptyString => EmptyString
  | String c s' =>
      match rstrip s' with
      | EmptyString => if is_space c then EmptyString else String c EmptyString
      | r => String c r
      end
  end.

(** [s.strip()] *)
Definition py_strip (s : string) : string := rstrip (lstrip s).

(** [s.replace(old, new)] for a non-empty [old]: occurrences are replaced from
    left to right without overlap. [skip] counts the characters of a match
    still to be dropped. *)
Fixpoint replace_from (old new : string) (skip : nat) (s : string) : string :=
  match s with
  | EmptyString => EmptyString
  | String c s' =>
      match skip with
      | S k => replace_from old new k s'
      | O =>
          if String.prefix old s
          then new +:+ replace_from old new (String.length old - 1) s'
          else String c (replace_from old new 0 s')
      end
  end.

Definition py_replace (old new s : string) : string := replace_from old new 0 s.

(** Truthiness of a string: the empty string is falsy. *)
Definition str_truthy (s : string) : bool :=
  match s with EmptyString => false | _ => true end.

(** Truthiness of a list: the empty list is falsy. *)
Definition list_truthy {A} (l : list A) : bool :=
  match l with [] => false | _ => true end.

(** A [dict] keyed by integers, in insertion order; keys are distinct. *)
Definition dict (V : Type) : Type := list (Z * V).

Fixpoint dict_get {V} (k : Z) (d : dict V) : option V :=
  match d with
  | [] => None
  | (k', v) :: d' => if decide (k' = k) then Some v else dict_get k d'
  end.

(** [d[k] = v]: an existing key keeps its place, a new one goes last. *)
Fixpoint dict_set {V} (k : Z) (v : V) (d : dict V) : dict V :=
  match d with
  | [] => [(k, v)]
  | (k', v') :: d' =>
      if decide (k' = k) then (k, v) :: d' else (k', v') :: dict_set k v d'
  end.

(** [{k: v for k, v in items}] *)
Definition dict_of_items {V} (items : list (Z * V)) : dict V :=
  foldl (λ d kv, dict_set kv.1 kv.2 d) [] items.

(** ** [sorted(..., key=..., reverse=True)]

    CPython computes the key of every element once, reverses the list, sorts
    it with a stable sort that only uses [<] on the keys, and reverses the
    outcome. The stable sort is written here as an insertion sort; on keys
    that are totally ordered every stable sort returns the same list. *)

Section Sorted.
Context {A : Type} (key : A → float).

Fixpoint insert_by (x : A) (l : list A) : list A :=
  match l with
  | [] => [x]
  | y :: l' =>
      if (key y <? key x)%float then y :: insert_by x l' else x :: y :: l'
  end.

Fixpoint sort_by (l : list A) : list A :=
  match l with
  | [] => []
  | x :: l' => insert_by x (sort_by l')
  end.

Definition sorted_reverse (l : list A) : list A := reverse (sort_by (reverse l)).
End Sorted.

(** ** 4.2 Similarity ranker (inside [search])

    [np.dot] of two one-dimensional arrays raises [ValueError] when their
    lengths differ; [np.linalg.norm] is the square root of the dot product of
    the vector with itself. Sums are taken from left to right; no statement
    below depends on the order of summation. Dividing a [float64] by zero does
    not raise: the quotient is an infinity or a NaN. *)

Definition sum_products (v1 v2 : list float) : float :=
  foldl (λ acc p, (acc + p.1 * p.2)%float) 0%float (zip v1 v2).

Definition np_dot (v1 v2 : list float) : result float :=
  if decide (length v1 = length v2) then Ok (sum_products v1 v2)
  else Raise (ValueError "shapes not aligned").

Definition np_norm (v : list float) : float := PrimFloat.sqrt (sum_products v v).

Definition cosine_similarity (v1 v2 : list float) : result float :=
  d ← np_dot v1 v2; Ok (d / (np_norm v1 * np_norm v2))%float.

(** [if issue.embedding]: [None] and the empty list are falsy. *)
Definition truthy_embedding (i : Issue) : option (list float) :=
  match embedding i with
  | Some (x :: v) => Some (x :: v)
  | _ => None
  end.

(** [{issue.id: cosine_similarity(query_vector, np.array(issue.embedding))
      for issue in issues if issue.embedding}], continued from [acc]. *)
Fixpoint similarities_from (query_vector : list float) (acc : dict float)
    (issues : list (Z * Issue)) : result (dict float) :=
  match issues with
  | [] => Ok acc
  | (id, issue) :: rest =>
      match truthy_embedding issue with
      | None => similarities_from query_vector acc rest
      | Some e =>
          score ← cosine_similarity query_vector e;
          similarities_from query_vector (dict_set id score acc) rest
      end
  end.

Definition similarities (query_vector : list float) (issues : list (Z * Issue))
    : result (dict float) :=
  similarities_from query_vector [] issues.

(** 0.6 as a binary64 value. *)
Definition threshold : float := 0x1.3333333333333p-1%float.

(** [{sid: score for sid, score in similarities.items() if score > threshold}];
    the keys of [similarities] are distinct, so no entry is overwritten. *)
Definition relevant_ids (sims : dict float) : dict float :=
  filter (λ kv, (threshold <? kv.2)%float = true) sims.

(** [sorted(relevant_ids, key=relevant_ids.get, reverse=True)]: the ids, each
    sorted under its score. *)
Definition sorted_ids (relevant : dict float) : list Z :=
  (sorted_reverse snd relevant).*1.

(** Version 2: [[issue_map[sid] for sid in sorted_ids if sid in issue_map]] *)
Definition rank (query_vector : list float) (issues : list (Z * Issue))
    : result (list (Z * Issue)) :=
  sims ← similarities query_vector issues;
  let issue_map := dict_of_items issues in
  Ok (omap (λ sid, pair sid <$> dict_get sid issue_map)
           (sorted_ids (relevant_ids sims))).

(** External capabilities: the geocoder, the Gemini client and Python's
    [json] module. [gemini_generate] stands for [_configure_genai()],
    [GenerativeModel(...).generate_content(prompt)] and [response.text], any
    of which may raise; [generate_embedding] and [get_coords_for_location]
    catch every exception themselves and return [None]. [identity_key] is
    how the ORM and the database driver read a value that is not a 64-bit
    integer when it is given to [db.session.get] as a primary key: they
    raise (a list or a dict of the wrong shape, an integer the driver cannot
    bind), or the row is looked up under some key (a string that the column
    affinity reads as a number), or under none. *)
Record Services := mkServices {
  get_coords_for_location : string → option (float * float);
  generate_embedding : string → string → option (list float);
  gemini_generate : string → result string;
  json_loads : string → result json;
  json_dumps : json → string;
  identity_key : json → result (option Z)
}.

Inductive response : Type :=
  | JsonResponse (code : Z) (body : json)
  | RedirectTo (endpoint : string) (flashes : list string)
  | SearchResults (results : list (Z * Issue)) (flashes : list string).

(** [search] of Version 2 ([q] and [loc] are the raw request arguments). *)
Definition search (svc : Services) (d : Db) (q loc : string) : result response :=
  let query := py_strip q in
  let location_query := py_strip loc in
  if negb (str_truthy query) && negb (str_truthy location_query)
  then Ok (RedirectTo "main.index" [])
  else
    let located :=
      if str_truthy location_query then
        match get_coords_for_location svc location_query with
        | Some (lat, lng) => Some (geo_candidates d lat lng search_radius)
        | None => None
        end
      else Some (select_issues (λ _, true) d) in
    match located with
    | None =>
        Ok (SearchResults [] ["Could not find location: " +:+ location_query])
    | Some issues =>
        if str_truthy query && list_truthy issues
        then
          match generate_embedding svc query "RETRIEVAL_QUERY" with
          | Some (x :: v) =>
              ranked ← rank (x :: v) issues; Ok (SearchResults ranked [])
          | _ => Ok (SearchResults [] [])
          end
        else Ok (SearchResults issues [])
    end.

(** ** Effects of the AI services ([app/ai_services.py])

    A computation may call the external classifier, write to the error log
    and raise; the calls and log lines are recorded in a trace. *)

Inductive event : Type :=
  | CallClassifier (prompt : string)
  | LogError (msg : string).

Definition Eff (A : Type) : Type := list event → result A * list event.

#[global] Instance eff_ret : MRet Eff := λ A a t, (Ok a, t).

#[global] Instance eff_bind : MBind Eff := λ A B k m t,
  match m t with
  | (Ok a, t') => k a t'
  | (Raise e, t') => (Raise e, t')
  end.

Definition lift {A} (r : result A) : Eff A := λ t, (r, t).

Definition emit (ev : event) : Eff unit := λ t, (Ok tt, t ++ [ev]).

(** [try: body  except Exception as e: handler(e)] *)
Definition try_except {A} (body : Eff A) (handler : exn → Eff A) : Eff A :=
  λ t, match body t with
       | (Ok a, t') => (Ok a, t')
       | (Raise e, t') => handler e t'
       end.

Definition exn_message (e : exn) : string :=
  match e with
  | ValueError m | JSONDecodeError m | AttributeError m | KeyError m
  | ApiError m | InvalidRequestError m | IntegrityError m => m
  end.

(** One request to the classifier: the call is recorded, then it returns the
    response text or raises. *)
Definition call_classifier (svc : Services) (prompt : string) : Eff string :=
  emit (CallClassifier prompt);; lift (gemini_generate svc prompt).

Definition not_duplicate : json := JDict [("is_duplicate", JBool false)].

Definition newline : string := String (ascii_of_nat 10) EmptyString.

Definition duplicate_prompt (svc : Services) (new_description : string)
    (existing_issues : list json) : string :=
  "You are an issue analysis expert. Based on the text descriptions, determine if the "
  +:+ "'new_report' is a duplicate of any 'existing_reports'. Be strict; only identify a "
  +:+ "duplicate if it clearly describes the same problem. Return a single, minified JSON "
  +:+ "object: {'is_duplicate': true, 'duplicate_id': ID} for duplicates, or "
  +:+ "{'is_duplicate': false} if none match." +:+ newline +:+ newline
  +:+ "NEW REPORT: " +:+ new_description +:+ newline +:+ newline
  +:+ "EXISTING REPORTS: " +:+ json_dumps svc (JList existing_issues).

(** [response.text.strip().replace('```json', '').replace('```', '')] *)
Definition clean_response (text : string) : string :=
  py_replace "```" "" (py_replace "```json" "" (py_strip text)).

(** 4.3 Duplicate detector. *)
Definition find_duplicate_issue (svc : Services) (new_description : string)
    (existing_issues : list json) : Eff json :=
  if list_truthy existing_issues then
    try_except
      (text ← call_classifier svc
                (duplicate_prompt svc new_description existing_issues);
       lift (json_loads svc (clean_response text)))
      (λ e,
        emit (LogError ("Gemini API error (duplicate check): " +:+ exn_message e));;
        mret not_duplicate)
  else mret not_duplicate.

(** Truthiness of a JSON value, and [dict.get] / [dict[key] = value] on one. *)
Definition json_truthy (j : json) : bool :=
  match j with
  | JNull => false
  | JBool b => b
  | JInt z => negb (z =? 0)%Z
  | JFloat f => negb (f =? 0)%float
  | JStr s => str_truthy s
  | JList l => list_truthy l
  | JDict d => list_truthy d
  end.

Fixpoint fields_get (key : string) (d : list (string * json)) : json :=
  match d with
  | [] => JNull
  | (k, v) :: d' => if decide (k = key) then v else fields_get key d'
  end.

Fixpoint fields_set (key : string) (v : json) (d : list (string * json))
    : list (string * json) :=
  match d with
  | [] => [(key, v)]
  | (k, v') :: d' =>
      if decide (k = key) then (key, v) :: d' else (k, v') :: fields_set key v d'
  end.

(** [result.get(key)]: only a dict has [get]. *)
Definition json_get (j : json) (key : string) : result json :=
  match j with
  | JDict d => Ok (fields_get key d)
  | _ => Raise (AttributeError "object has no attribute 'get'")
  end.

(** The integers SQLite stores in an INTEGER column. *)
Definition fits_int64 (z : Z) : bool :=
  ((- 2 ^ 63 <=? z) && (z <? 2 ^ 63))%Z.

(** [db.session.get(Issue, ident)] with an identity taken from JSON. An
    integer that fits the key column is looked up as it is; what becomes of
    any other value is up to the ORM and the driver ([identity_key]). *)
Definition get_issue_by_json (svc : Services) (d : Db) (ident : json)
    : result (option Issue) :=
  key ← match ident with
        | JInt z => if fits_int64 z then Ok (Some z) else identity_key svc ident
        | _ => identity_key svc ident
        end;
  Ok (key ≫= λ k, issues d !! k).

Definition issue_summary (row : Z * Issue) : json :=
  JDict [("id", JInt row.1); ("title", JStr (category row.2));
         ("description", JStr (description row.2))].

(** [check_duplicates]. [coords] is the outcome of
    [float(data.get('lat'))], [float(data.get('lng'))]: [None] when either
    conversion raised [TypeError] or [ValueError]. *)
Definition check_duplicates (svc : Services) (d : Db)
    (coords : option (float * float)) (new_description : string) : Eff response :=
  match coords with
  | None => mret (JsonResponse 400 (JDict [("error", JStr "Invalid coordinates")]))
  | Some (lat, lng) =>
      let nearby_issues := geo_candidates d lat lng duplicate_radius in
      if negb (list_truthy nearby_issues)
      then mret (JsonResponse 200 not_duplicate)
      else
        let existing_issues_data := issue_summary <$> nearby_issues in
        res ← find_duplicate_issue svc new_description existing_issues_data;
        is_dup ← lift (json_get res "is_duplicate");
        if json_truthy is_dup then
          dup_id ← lift (json_get res "duplicate_id");
          found ← lift (get_issue_by_json svc d dup_id);
          match found, res with
          | Some duplicate_issue, JDict fields =>
              mret (JsonResponse 200
                     (JDict (fields_set "duplicate_title"
                               (JStr (category duplicate_issue)) fields)))
          | _, _ => mret (JsonResponse 200 res)
          end
        else mret (JsonResponse 200 res)
  end.

(** ** Votes and reputation ([upvote], [update_status], [report_issue])

    A handler that raises leaves the database as it was (nothing is
    committed). [current_user] is the key of the logged-in user. *)

(** [current_user.upvotes.filter_by(issue_id=issue_id).first()]: some row of
    the user's votes on the issue, when there is one. *)
Definition votes_of (d : Db) (user iid : Z) : gmap Z Upvote :=
  filter (λ kv, voter_id kv.2 = user ∧ issue_id kv.2 = iid) (upvotes d).

Definition existing_upvote (d : Db) (user iid : Z) : option (Z * Upvote) :=
  head (map_to_list (votes_of d user iid)).

(** The Upvote rows stored for an issue, and their number. *)
Definition votes_on (d : Db) (iid : Z) : gmap Z Upvote :=
  filter (λ kv, issue_id kv.2 = iid) (upvotes d).

Definition vote_records (d : Db) (iid : Z) : nat := size (votes_on d iid).

Definition set_upvote_count (c : Z) (i : Issue) : Issue :=
  mkIssue (category i) (description i) (latitude i) (longitude i)
          (location_text i) (image_filename i) (status i) (Some c)
          (embedding i) (geojson i) (reporter_id i).

Definition set_status (s : string) (i : Issue) : Issue :=
  mkIssue (category i) (description i) (latitude i) (longitude i)
          (location_text i) (image_filename i) s (upvote_count i)
          (embedding i) (geojson i) (reporter_id i).

Definition set_reputation (r : option Z) (u : User) : User :=
  mkUser (username u) r (is_moderator u).

Definition no_reporter {A} : result A :=
  Raise (AttributeError "'NoneType' object has no attribute 'reputation_points'").

Definition upvote_response (count : Z) (voted : bool) : response :=
  JsonResponse 200 (JDict [("success", JBool true); ("upvote_count", JInt count);
                           ("voted", JBool voted)]).

(** [upvote] (the two versions agree). *)
Definition upvote (d : Db) (current_user iid : Z) : result (Db * response) :=
  match issues d !! iid with
  | None =>
      Ok (d, JsonResponse 404 (JDict [("success", JBool false);
                                      ("error", JStr "Issue not found")]))
  | Some issue =>
      let count := or_zero (upvote_count issue) in
      match users d !! reporter_id issue with
      | None => no_reporter
      | Some reporter =>
          let points := or_zero (reputation_points reporter) in
          match existing_upvote d current_user iid with
          | Some (vote_id, _) =>
              Ok (mkDb (<[reporter_id issue := set_reputation (Some (points - 2)%Z) reporter]>
                          (users d))
                       (<[iid := set_upvote_count (count - 1) issue]> (issues d))
                       (delete vote_id (upvotes d))
                       (notifications d),
                  upvote_response (count - 1) false)
          | None =>
              Ok (mkDb (<[reporter_id issue := set_reputation (Some (points + 2)%Z) reporter]>
                          (users d))
                       (<[iid := set_upvote_count (count + 1) issue]> (issues d))
                       (<[new_id (upvotes d) := mkUpvote current_user iid]> (upvotes d))
                       (notifications d),
                  upvote_response (count + 1) true)
          end
      end
  end.

Definition valid_statuses : list string := ["Reported"; "In Progress"; "Resolved"].

(** [select(User).join(Upvote).where(Upvote.issue_id == issue.id)] together
    with the reporter: the keys of the users to notify. *)
Definition recipients (d : Db) (issue_key : Z) (issue : Issue) : gset Z :=
  {[reporter_id issue]}
  ∪ filter (λ u, is_Some (users d !! u))
           (list_to_set ((λ kv, voter_id kv.2) <$> map_to_list (votes_on d issue_key))).

Definition status_notification (issue_key : Z) (issue : Issue) (new_status : string)
    (user : Z) : Notification :=
  mkNotification "status_update"
    (JDict [("issue_id", JInt issue_key); ("issue_category", JStr (category issue));
            ("status", JStr new_status)])
    user.

(** [for user in recipients: user.add_notification(...)] *)
Definition notify_all (d : Db) (issue_key : Z) (issue : Issue) (new_status : string)
    : list Notification :=
  notifications d
  ++ (status_notification issue_key issue new_status
        <$> elements (recipients d issue_key issue)).

(** The query for the users who voted, as Version 2 writes it:
    [select(User).join(Upvote).where(...).options(joinedload(User.upvotes))].
    [User.upvotes] is declared [lazy='dynamic'], a relationship that cannot
    be loaded eagerly, so the ORM refuses the query when it is run. *)
Definition upvoters_query {A} : result A :=
  Raise (InvalidRequestError
           "'User.upvotes' does not support object population - eager loading cannot be applied.").

(** [update_status] of Version 2. [status_field] is
    [request.form.get('status')]. A user key with no row stands for a request
    that [login_required] sends to the login page. A request that passes the
    guards sets the status and, for 'Resolved', the reporter's points on the
    session's objects, and then runs [upvoters_query], which raises before
    anything is committed. *)
Definition update_status (d : Db) (current_user iid : Z)
    (status_field : option string) : result (Db * response) :=
  match users d !! current_user with
  | None => Ok (d, RedirectTo "main.login" [])
  | Some me =>
      if negb (is_moderator me)
      then Ok (d, RedirectTo "main.index" ["Permission denied."])
      else
        match issues d !! iid with
        | None => Ok (d, RedirectTo "main.view_issue" ["Issue not found."])
        | Some issue =>
            match status_field with
            | Some new_status =>
                if bool_decide (new_status ∈ valid_statuses) then
                  (if bool_decide (new_status = "Resolved")
                   then match users d !! reporter_id issue with
                        | None => no_reporter
                        | Some _ => Ok tt
                        end
                   else Ok tt);;
                  upvoters_query
                else Ok (d, RedirectTo "main.view_issue" ["Invalid status."])
            | None => Ok (d, RedirectTo "main.view_issue" ["Invalid status."])
            end
        end
  end.

(** The submitted [IssueForm]: the field data after validation, and whether
    [validate_on_submit()] accepted it (with its errors otherwise). *)
Record IssueForm := mkIssueForm {
  form_valid : bool;
  form_errors : json;
  form_category : string;
  form_description : string;
  form_location_text : string;
  form_photo : option string;        (* the secured file name of the upload *)
  form_geojson : string
}.

(** The database stores a NaN as NULL, which a column declared
    [nullable=False] refuses when the session commits. *)
Definition not_null {A} (column : string) : result A :=
  Raise (IntegrityError ("NOT NULL constraint failed: " +:+ column)).

(** [report_issue]; [lat] and [lng] are [request.form.get(..., type=float)],
    which reads 'nan' as a NaN. A new issue gets the column defaults: status
    'Reported', upvote_count 0, and no embedding
    ([generate_and_set_embedding] is never called). The commit fails on a
    NaN coordinate ([not_null]), and then nothing is stored. *)
Definition report_issue (svc : Services) (d : Db) (current_user : Z)
    (form : IssueForm) (lat lng : option float) : result (Db * response) :=
  match users d !! current_user with
  | None => Ok (d, RedirectTo "main.login" [])
  | Some reporter =>
      if negb (form_valid form)
      then Ok (d, JsonResponse 400 (JDict [("success", JBool false);
                                           ("errors", form_errors form)]))
      else
        match lat, lng with
        | Some lat, Some lng =>
            geo ← (if str_truthy (form_geojson form)
                   then g ← json_loads svc (form_geojson form); Ok (Some g)
                   else Ok None);
               (if PrimFloat.is_nan lat then not_null "issue.latitude"
                else if PrimFloat.is_nan lng then not_null "issue.longitude"
                else Ok tt);;
               (let key := new_id (issues d) in
                let issue :=
                  mkIssue (form_category form) (form_description form) lat lng
                          (Some (form_location_text form)) (form_photo form)
                          "Reported" (Some 0%Z) None geo current_user in
                Ok (mkDb (<[current_user :=
                              set_reputation
                                (Some (or_zero (reputation_points reporter) + 5)%Z)
                                reporter]> (users d))
                         (<[key := issue]> (issues d))
                         (upvotes d)
                         (notifications d),
                    JsonResponse 200
                      (JDict [("success", JBool true);
                              ("issue", JDict [("id", JInt key);
                                               ("title", JStr (category issue));
                                               ("lat", JFloat lat);
                                               ("lng", JFloat lng)])])))
        | _, _ => Ok (d, JsonResponse 400 (JDict [("success", JBool false);
                                                  ("error", JStr "Missing coordinates")]))
        end
  end.

(** ** What Version 1 does differently *)

Module V1.

(** [[issue_map[sid] for sid in sorted_ids]]: indexing raises [KeyError]
    on a missing key. *)
Definition rank (query_vector : list float) (issues : list (Z * Issue))
    : result (list (Z * Issue)) :=
  sims ← similarities query_vector issues;
  let issue_map := dict_of_items issues in
  foldr (λ sid acc,
           match dict_get sid issue_map with
           | Some issue => l ← acc; Ok ((sid, issue) :: l)
           | None => Raise (KeyError "sid")
           end)
        (Ok []) (sorted_ids (relevant_ids sims)).

(** [update_status]: the points are granted only when they are set
    ([... and issue.reporter.reputation_points is not None]). *)
Definition update_status (d : Db) (current_user iid : Z)
    (status_field : option string) : result (Db * response) :=
  match users d !! current_user with
  | None => Ok (d, RedirectTo "main.login" [])
  | Some me =>
      if negb (is_moderator me)
      then Ok (d, RedirectTo "main.index"
                    ["You do not have permission to perform this action."])
      else
        match issues d !! iid with
        | None => Ok (d, RedirectTo "main.view_issue" [])
        | Some issue =>
            match status_field with
            | Some new_status =>
                if bool_decide (new_status ∈ valid_statuses) then
                  match users d !! reporter_id issue with
                  | None => no_reporter
                  | Some reporter =>
                      let reporter' :=
                        match reputation_points reporter with
                        | Some points =>
                            if bool_decide (new_status = "Resolved")
                            then set_reputation (Some (points + 20)%Z) reporter
                            else reporter
                        | None => reporter
                        end in
                      Ok (mkDb (<[reporter_id issue := reporter']> (users d))
                               (<[iid := set_status new_status issue]> (issues d))
                               (upvotes d)
                               (notify_all d iid issue new_status),
                          RedirectTo "main.view_issue"
                            ["Issue status has been updated and followers notified."])
                  end
                else Ok (d, RedirectTo "main.view_issue" ["Invalid status."])
            | None => Ok (d, RedirectTo "main.view_issue" ["Invalid status."])
            end
        end
  end.

End V1.

(** ** States the handlers produce

    The databases that arise from one without issues by reporting issues,
    voting and updating statuses. *)
Inductive produced (svc : Services) : Db → Prop :=
  | produced_init d :
      issues d = ∅ → produced svc d
  | produced_report d user form lat lng d' r :
      produced svc d →
      report_issue svc d user form lat lng = Ok (d', r) →
      produced svc d'
  | produced_upvote d user iid d' r :
      produced svc d →
      upvote d user iid = Ok (d', r) →
      produced svc d'
  | produced_status d user iid field d' r :
      produced svc d →
      update_status d user iid field = Ok (d', r) →
      produced svc d'
  | produced_status_v1 d user iid field d' r :
      produced svc d →
      V1.update_status d user iid field = Ok (d', r) →
      produced svc d'.

(** ** Auxiliary notions used to state lemmas about the ranker *)

(** The entry a candidate contributes to the similarity map, when it has a
    non-empty embedding of the query's length. *)
Definition scored (query_vector : list float) (row : Z * Issue) : option (Z * float) :=
  e ← truthy_embedding row.2;
  match cosine_similarity query_vector e with
  | Ok s => Some (row.1, s)
  | Raise _ => None
  end.

(** Every neighbouring pair of [l] is related by [R]. *)
Definition neighbours {A} (R : A → A → Prop) (l : list A) : Prop :=
  ∀ l1 a b l2, l = l1 ++ a :: b :: l2 → R a b.

(** Ascending under [key]: an element is not strictly below its predecessor. *)
Definition ascending {A} (key : A → float) (a b : A) : Prop :=
  (key b <? key a)%float = false.

(** A ranked row and the map entry it was ranked under. *)
Definition ranked_under (query_vector : list float) (issues : list (Z * Issue))
    (row : Z * Issue) (entry : Z * float) : Prop :=
  row.1 = entry.1 ∧ row ∈ issues
  ∧ ∃ e, truthy_embedding row.2 = Some e
         ∧ cosine_similarity query_vector e = Ok entry.2
         ∧ (threshold <? entry.2)%float = true.

(** The vote count of an issue agrees with the stored Upvote rows (an unset
    count reads as 0, as the handlers read it). *)
Definition count_consistent (d : Db) (iid : Z) : Prop :=
  ∀ issue, issues d !! iid = Some issue →
    or_zero (upvote_count issue) = Z.of_nat (vote_records d iid).

(** Two requests to [upvote] in succession by the same user. *)
Definition upvote_twice (d : Db) (user iid : Z) : result Db :=
  first ← upvote d user iid;
  second ← upvote first.1 user iid;
  Ok second.1.

(** The count of an issue and the points of a user, as stored. *)
Definition stored_count (d : Db) (iid : Z) : option (option Z) :=
  upvote_count <$> issues d !! iid.

Definition stored_points (d : Db) (user : Z) : option (option Z) :=
  reputation_points <$> users d !! user.

(** ** Example data *)

Module Examples.
Local Open Scope Z_scope.

Definition reporter : User := mkUser "ada" (Some 0) false.
Definition moderator : User := mkUser "max" (Some 0) true.

Definition issue_with (lat lng : float) (e : option (list float)) : Issue :=
  mkIssue "Pothole" "a hole in the road" lat lng None None "Reported"
          (Some 0) e None 1.

(** An issue at the north-east corner of the search box around (10, 20). *)
Definition corner_issue : Issue :=
  issue_with (10 + search_radius)%float (20 + search_radius)%float
             (Some [1; 0]%float).

Definition corner_db : Db :=
  mkDb (<[1 := reporter]> (<[2 := moderator]> ∅)) (<[7 := corner_issue]> ∅) ∅ [].

(** Four candidates for the query vector [1, 0]: similarity 1, no
    embedding, similarity 0.6 (not above the threshold) and 0.8. *)
Definition query_vector : list float := [1; 0]%float.
Definition issue_a : Issue := issue_with 10 20 (Some [1; 0]%float).
Definition issue_b : Issue := issue_with 10 20 None.
Definition issue_c : Issue :=
  issue_with 10 20 (Some [0x1.3333333333333p-1; 0x1.999999999999ap-1]%float).
Definition issue_d : Issue :=
  issue_with 10 20 (Some [0x1.999999999999ap-1; 0x1.3333333333333p-1]%float).
Definition candidates : list (Z * Issue) :=
  [(1, issue_a); (2, issue_b); (3, issue_c); (4, issue_d)].
Definition ranked : list (Z * Issue) := [(1, issue_a); (4, issue_d)].

(** A candidate whose embedding is the zero vector. *)
Definition zero_vector : list float := [0; 0]%float.
Definition issue_zero : Issue := issue_with 10 20 (Some zero_vector).

(** Services whose classifier is down, whose JSON parser rejects every
    text, and whose embedding of any query is [1, 0]. *)
Definition services : Services :=
  mkServices (λ _, None) (λ _ _, Some query_vector)
             (λ _, Raise (ApiError "service unavailable"))
             (λ _, Raise (JSONDecodeError "Expecting value"))
             (λ _, "[]") (λ _, Ok None).

(** The same, with a classifier that answers with text that is no JSON. *)
Definition chatty_services : Services :=
  mkServices (λ _, None) (λ _ _, Some query_vector)
             (λ _, Ok "I am not sure.")
             (λ _, Raise (JSONDecodeError "Expecting value"))
             (λ _, "[]") (λ _, Ok None).

Definition empty_db : Db := mkDb (<[1 := reporter]> (<[2 := moderator]> ∅)) ∅ ∅ [].

(** An issue whose count and whose reporter's points are unset. *)
Definition unset_db : Db :=
  mkDb (<[1 := mkUser "ada" None false]> (<[2 := moderator]> ∅))
       (<[7 := mkIssue "Pothole" "a hole in the road" 10 20 None None
                 "Reported" None None None 1]> ∅)
       ∅ [].

(** User 2 has voted for issue 7. *)
Definition voted_db : Db :=
  mkDb (<[1 := mkUser "ada" (Some 2) false]> (<[2 := moderator]> ∅))
       (<[7 := mkIssue "Pothole" "a hole in the road" 10 20 None None
                 "Reported" (Some 1) None None 1]> ∅)
       (<[5 := mkUpvote 2 7]> ∅) [].

(** A user (2) holding two Upvote rows for the same issue. *)
Definition double_vote_db : Db :=
  mkDb (<[1 := reporter]> (<[2 := moderator]> ∅))
       (<[7 := mkIssue "Pothole" "a hole in the road" 10 20 None None
                 "Reported" (Some 2) None None 1]> ∅)
       (<[1 := mkUpvote 2 7]> (<[2 := mkUpvote 2 7]> ∅)) [].

Definition form : IssueForm :=
  mkIssueForm true JNull "Pothole" "a hole in the road" "Main Street" None "".
End Examples.

(** ** The other handlers and helpers *)

Module Version1.

(** [search] of Version 1: the request arguments are used as they come
    (no [strip]) and the ranked ids index the issue map directly. *)
Definition search (svc : Services) (d : Db) (query location_query : string)
    : result response :=
  if negb (str_truthy query) && negb (str_truthy location_query)
  then Ok (RedirectTo "main.index" [])
  else
    let located :=
      if str_truthy location_query then
        match get_coords_for_location svc location_query with
        | Some (lat, lng) => Some (geo_candidates d lat lng search_radius)
        | None => None
        end
      else Some (select_issues (λ _, true) d) in
    match located with
    | None =>
        Ok (SearchResults [] ["Could not find location: " +:+ location_query])
    | Some issues =>
        if str_truthy query && list_truthy issues
        then
          match generate_embedding svc query "RETRIEVAL_QUERY" with
          | Some (x :: v) =>
              ranked ← V1.rank (x :: v) issues; Ok (SearchResults ranked [])
          | _ => Ok (SearchResults [] [])
          end
        else Ok (SearchResults issues [])
    end.

End Version1.

(** The text has a backtick in it. *)
Fixpoint has_backtick (s : string) : bool :=
  match s with
  | EmptyString => false
  | String c s' => if decide (c = "`"%char) then true else has_backtick s'
  end.

(** ** The home page ([index])

    [issues_data], the list the template receives: one entry per stored
    issue. [current_user] is [None] for an anonymous visitor. *)

Record IssueDatum := mkIssueDatum {
  datum_id : Z;
  datum_lat : float;
  datum_lng : float;
  datum_title : string;
  datum_upvotes : Z;
  datum_user_has_voted : bool;
  datum_status : string
}.

(** [{uv.issue_id for uv in current_user.upvotes.all()}], or the empty set
    (Version 1 collects the same ids in a list; only membership is used). *)
Definition upvoted_issue_ids (d : Db) (current_user : option Z) : gset Z :=
  match current_user with
  | Some user =>
      list_to_set ((λ kv, issue_id kv.2)
                     <$> map_to_list (filter (λ kv, voter_id kv.2 = user) (upvotes d)))
  | None => ∅
  end.

Definition issues_data (d : Db) (current_user : option Z) : list IssueDatum :=
  (λ row, mkIssueDatum row.1 (latitude row.2) (longitude row.2) (category row.2)
                       (or_zero (upvote_count row.2))
                       (bool_decide (row.1 ∈ upvoted_issue_ids d current_user))
                       (status row.2))
    <$> map_to_list (issues d).

(** ** The weekly report ([generate_report], [generate_weekly_report])

    The breakdown and the top issue are computed alike in both versions;
    the fixed sentences and the prompt are those of Version 2 (Version 1
    words them differently). *)

(** A [dict] from category to count, in insertion order. *)
Fixpoint counts_get (key : string) (counts : list (string * Z)) : Z :=
  match counts with
  | [] => 0%Z
  | (k, n) :: counts' => if decide (k = key) then n else counts_get key counts'
  end.

Fixpoint counts_set (key : string) (n : Z) (counts : list (string * Z))
    : list (string * Z) :=
  match counts with
  | [] => [(key, n)]
  | (k, n') :: counts' =>
      if decide (k = key) then (key, n) :: counts'
      else (k, n') :: counts_set key n counts'
  end.

(** [for issue in recent_issues:
       issues_by_cat[issue.category] = issues_by_cat.get(issue.category, 0) + 1] *)
Definition issues_by_cat (recent_issues : list (Z * Issue)) : list (string * Z) :=
  foldl (λ counts row,
           counts_set (category row.2) (counts_get (category row.2) counts + 1)%Z
                      counts)
        [] recent_issues.

(** The number of issues of a category, and the sum of a breakdown. *)
Definition issues_in (recent_issues : list (Z * Issue)) (c : string) : Z :=
  Z.of_nat (length (filter (λ row, category row.2 = c) recent_issues)).

Fixpoint sum_counts (counts : list (string * Z)) : Z :=
  match counts with
  | [] => 0%Z
  | (_, n) :: counts' => (n + sum_counts counts')%Z
  end.

(** [max(items, key=key)] on a non-empty list, continued from the best item
    so far: a later item wins only when its key is strictly greater. *)
Fixpoint max_from {A} (key : A → Z) (best : A) (items : list A) : A :=
  match items with
  | [] => best
  | x :: items' => max_from key (if (key best <? key x)%Z then x else best) items'
  end.

(** [max(recent_issues, key=lambda issue: issue.upvote_count or 0)], which
    raises on an empty list. *)
Definition top_issue (recent_issues : list (Z * Issue)) : result (Z * Issue) :=
  match recent_issues with
  | [] => Raise (ValueError "max() arg is an empty sequence")
  | row :: rest => Ok (max_from (λ r, or_zero (upvote_count r.2)) row rest)
  end.

Definition report_prompt (data_summary : string) : string :=
  "You are an analyst for a city council. Based ONLY on the provided data summary, "
  +:+ "write a concise, professional briefing in Markdown format. The title MUST be "
  +:+ "'Civic Issue Report' followed by the exact 'Date Range' from the data. Highlight "
  +:+ "key trends and the most critical issue. Do not add unprovided information."
  +:+ newline +:+ newline +:+ "DATA:" +:+ newline +:+ data_summary.

Definition report_failure : string := "Error: Could not generate the weekly report".

Definition generate_weekly_report (svc : Services) (data_summary : string)
    : Eff string :=
  try_except
    (text ← call_classifier svc (report_prompt data_summary); mret (py_strip text))
    (λ e,
      emit (LogError ("Gemini API error (report generation): " +:+ exn_message e));;
      mret report_failure).

(** [generate_report]. [recent_issues] is the outcome of the query for the
    issues of the last seven days; [format_summary] is the f-string that
    renders the date range, the total, the breakdown and the top issue. *)
Definition generate_report (svc : Services)
    (format_summary : nat → list (string * Z) → Z * Issue → string)
    (recent_issues : list (Z * Issue)) : Eff response :=
  if negb (list_truthy recent_issues)
  then mret (JsonResponse 200
               (JDict [("report", JStr "No new issues reported in the last 7 days")]))
  else
    let counts := issues_by_cat recent_issues in
    top ← lift (top_issue recent_issues);
    report ← generate_weekly_report svc
               (format_summary (length recent_issues) counts top);
    mret (JsonResponse 200 (JDict [("report", JStr report)])).

(** ** The retention sweep ([app/tasks.py], Version 2)

    [expired] stands for the where-clause [Issue.timestamp < cutoff_date],
    which the database evaluates on the timestamp column. Deleting an issue
    through the session deletes its Upvote rows with it
    ([cascade='all, delete-orphan'] on [Issue.upvotes]). *)

Definition delete_issue (key : Z) (d : Db) : Db :=
  mkDb (users d) (delete key (issues d))
       (filter (λ kv, issue_id kv.2 ≠ key) (upvotes d))
       (notifications d).

Definition delete_old_issues (expired : Z * Issue → bool) (d : Db) : Db :=
  let issues_to_delete :=
    filter (λ row, expired row = true) (map_to_list (issues d)) in
  if list_truthy issues_to_delete
  then foldl (λ d row, delete_issue row.1 d) d issues_to_delete
  else d.

(** Whether a candidate is scored against the query with a similarity equal
    to [k] (as [==] compares two floats). *)
Definition has_score (query_vector : list float) (k : float) (row : Z * Issue)
    : bool :=
  match scored query_vector row with
  | Some entry => (entry.2 =? k)%float
  | None => false
  end.

(** What a toggle adds to the count: 1 for a vote, -1 for an un-vote. *)
Definition vote_delta (voted : bool) : Z := if voted then 1%Z else (-1)%Z.

(** Invariants of the vote tables: every Upvote row names a stored issue,
    every count agrees with the rows, and nobody holds two rows for one
    issue. *)
Definition votes_refer_to_issues (d : Db) : Prop :=
  ∀ k v, upvotes d !! k = Some v → is_Some (issues d !! issue_id v).

Definition single_votes (d : Db) : Prop :=
  ∀ user iid, (size (votes_of d user iid) ≤ 1)%nat.

Definition consistent_votes (d : Db) : Prop :=
  votes_refer_to_issues d ∧ (∀ iid, count_consistent d iid) ∧ single_votes d.

(** ** More example data *)

Module Samples.
Local Open Scope Z_scope.

(** A stored embedding with three components, against queries of two. *)
Definition mismatch_db : Db :=
  mkDb (<[1 := Examples.reporter]> ∅)
       (<[3 := Examples.issue_with 10 20 (Some [1; 0; 0]%float)]> ∅) ∅ [].

(** Services whose geocoder finds every place at (10, 20). *)
Definition located_services : Services :=
  mkServices (λ _, Some (10, 20)%float) (λ _ _, Some Examples.query_vector)
             (λ _, Raise (ApiError "service unavailable"))
             (λ _, Raise (JSONDecodeError "Expecting value"))
             (λ _, "[]") (λ _, Ok None).

(** A classifier that names issue 7 as the duplicate. Its answer is the
    JSON text [duplicate_text]; the parser reads that text as
    [duplicate_answer] and takes no other. *)
Definition quote : string := String (ascii_of_nat 34) EmptyString.

Definition duplicate_text : string :=
  "{" +:+ quote +:+ "is_duplicate" +:+ quote +:+ ": true, "
  +:+ quote +:+ "duplicate_id" +:+ quote +:+ ": 7}".

Definition duplicate_answer : list (string * json) :=
  [("is_duplicate", JBool true); ("duplicate_id", JInt 7)].

Definition answering_services : Services :=
  mkServices (λ _, None) (λ _ _, Some Examples.query_vector)
             (λ _, Ok duplicate_text)
             (λ text, if decide (text = duplicate_text)
                      then Ok (JDict duplicate_answer)
                      else Raise (JSONDecodeError "Expecting value"))
             (λ _, "[]") (λ _, Ok None).

(** A classifier whose answer parses to a JSON list. *)
Definition listing_services : Services :=
  mkServices (λ _, None) (λ _ _, Some Examples.query_vector)
             (λ _, Ok "[7]")
             (λ _, Ok (JList [JInt 7]))
             (λ _, "[]") (λ _, Ok None).

(** The point where [Examples.corner_issue] lies. *)
Definition corner_lat : float := (10 + search_radius)%float.
Definition corner_lng : float := (20 + search_radius)%float.

(** The issues of a week, with their counts: 2, 5, unset and 5. *)
Definition counted (c : option Z) : Issue :=
  mkIssue "Pothole" "a hole in the road" 10 20 None None "Reported" c None None 1.
Definition week : list (Z * Issue) :=
  [(1, counted (Some 2)); (2, counted (Some 5)); (3, counted None);
   (4, counted (Some 5))].

(** Candidates of which two (3 and 2) have similarity 1 to the query
    [1, 0], and one (1) has similarity 0.8. *)
Definition tied : list (Z * Issue) :=
  [(3, Examples.issue_a); (1, Examples.issue_d); (2, Examples.issue_a)].
End Samples.
(** ** Order facts of binary64 comparisons *)

Module FloatOrder.

Lemma SFcompare_swap (x y : spec_float) :
SFcompare y x = CompOpp <$> SFcompare x y.
Proof.
destruct x as [sx|sx| |sx mx ex], y as [sy|sy| |sy my ey]; simpl;
  try reflexivity; try (destruct sx; reflexivity); try (destruct sy; reflexivity);
  try (destruct sx, sy; reflexivity).
destruct sx, sy; simpl; try reflexivity;
  rewrite (Z.compare_antisym ey ex);
  destruct (ey ?= ex)%Z eqn:He; simpl; try reflexivity;
  change PosDef.Pos.compare_cont with Pos.compare_cont;
  rewrite (Pos.compare_cont_antisym mx my Eq); simpl;
  destruct (Pos.compare_cont Eq my mx); reflexivity.
Qed.

Lemma SFcompare_diag (x : spec_float) :
x ≠ S754_nan → SFcompare x x = Some Eq.
Proof.
destruct x as [s|s| |s m e]; simpl; intros Hx; try congruence.
- destruct s; reflexivity.
- rewrite Z.compare_refl, Pos.compare_cont_refl. destruct s; reflexivity.
Qed.

Lemma SFcompare_nan_l (x y : spec_float) :
SFcompare x y = None ↔ x = S754_nan ∨ y = S754_nan.
Proof.
destruct x as [sx|sx| |sx mx ex], y as [sy|sy| |sy my ey]; simpl;
  split; intros H; try discriminate; try (destruct H; discriminate);
  auto.
Qed.

(** [is_nan x] is [negb (x =? x)]; in terms of the specification floats. *)
Lemma is_nan_false (x : float) :
is_nan x = false ↔ Prim2SF x ≠ S754_nan.
Proof.
unfold is_nan. rewrite FloatAxioms.eqb_spec. unfold SFeqb. split.
- intros H Hn. rewrite Hn in H. discriminate.
- intros H. rewrite SFcompare_diag by assumption. reflexivity.
Qed.

Lemma ltb_not_nan_l (x y : float) : (x <? y)%float = true → is_nan x = false.
Proof.
rewrite FloatAxioms.ltb_spec, is_nan_false. unfold SFltb. intros H Hn.
rewrite Hn in H. discriminate.
Qed.

Lemma ltb_not_nan_r (x y : float) : (x <? y)%float = true → is_nan y = false.
Proof.
rewrite FloatAxioms.ltb_spec, is_nan_false. unfold SFltb. intros H Hn.
rewrite Hn in H. destruct (Prim2SF x); discriminate.
Qed.

(** Strictly below excludes above-or-equal. *)
Lemma ltb_leb_false (x y : float) : (x <? y)%float = true → (y <=? x)%float = false.
Proof.
rewrite FloatAxioms.ltb_spec, FloatAxioms.leb_spec. unfold SFltb, SFleb.
rewrite (SFcompare_swap (Prim2SF x) (Prim2SF y)).
destruct (SFcompare (Prim2SF x) (Prim2SF y)) as [[]|]; simpl; congruence.
Qed.

Lemma ltb_asym (x y : float) : (x <? y)%float = true → (y <? x)%float = false.
Proof.
rewrite !FloatAxioms.ltb_spec. unfold SFltb.
rewrite (SFcompare_swap (Prim2SF x) (Prim2SF y)).
destruct (SFcompare (Prim2SF x) (Prim2SF y)) as [[]|]; simpl; congruence.
Qed.

(** On numbers (no NaN) the order is total. *)
Lemma not_ltb_leb (x y : float) :
is_nan x = false → is_nan y = false →
(x <? y)%float = false → (y <=? x)%float = true.
Proof.
rewrite !is_nan_false, FloatAxioms.ltb_spec, FloatAxioms.leb_spec. unfold SFltb, SFleb.
intros Hx Hy. rewrite (SFcompare_swap (Prim2SF x) (Prim2SF y)).
destruct (SFcompare (Prim2SF x) (Prim2SF y)) as [[]|] eqn:Hc; simpl;
  try congruence.
apply SFcompare_nan_l in Hc. tauto.
Qed.

Lemma leb_refl (x : float) : is_nan x = false → (x <=? x)%float = true.
Proof.
rewrite is_nan_false, FloatAxioms.leb_spec. unfold SFleb. intros Hx.
rewrite SFcompare_diag by assumption. reflexivity.
Qed.

Lemma leb_not_nan (x y : float) :
(x <=? y)%float = true → is_nan x = false ∧ is_nan y = false.
Proof.
rewrite FloatAxioms.leb_spec, !is_nan_false. unfold SFleb. intros H.
split; intros Hn; rewrite Hn in H; [discriminate|].
destruct (Prim2SF x); discriminate.
Qed.

End FloatOrder.


(** ** The geo-bounded candidate filter *)

Section GeoFilter.
Local Open Scope float_scope.

Lemma between_spec (x lo hi : float) :
  between x lo hi = true ↔ (lo <=? x) = true ∧ (x <=? hi) = true.
Proof. unfold between. apply andb_true_iff. Qed.

(** Both ends of a non-empty interval pass the test: it is closed. *)
Lemma between_ends (lo hi : float) :
  (lo <=? hi) = true → between lo lo hi = true ∧ between hi lo hi = true.
Proof.
  intros Hle. destruct (FloatOrder.leb_not_nan _ _ Hle) as [Hlo Hhi].
  rewrite !between_spec, !FloatOrder.leb_refl by assumption. auto.
Qed.

Lemma elem_of_select_issues (P : Issue → bool) (d : Db) (id : Z) (i : Issue) :
  (id, i) ∈ select_issues P d ↔ issues d !! id = Some i ∧ P i = true.
Proof.
  unfold select_issues. rewrite list_elem_of_filter, elem_of_map_to_list.
  simpl. tauto.
Qed.

Lemma NoDup_select_issues (P : Issue → bool) (d : Db) :
  NoDup (select_issues P d).*1.
Proof.
  unfold select_issues.
  eapply sublist_NoDup; [apply (NoDup_fst_map_to_list (issues d))|].
  apply fmap_sublist, sublist_filter.
Qed.

(** C1. The candidate set of a centre [(lat, lng)] and a radius is the
    closed axis-aligned box around the centre: a stored issue is a
    candidate exactly when its latitude passes the two latitude bounds and
    its longitude the two longitude bounds, each bound being an inclusive
    comparison with [centre - radius] or [centre + radius]; nothing else
    (no distance) enters the test, and the ends of each interval are
    inside it. *)
Theorem geo_filter_inclusive_box (d : Db) (lat lng radius : float) :
  (∀ (id : Z) (i : Issue),
     (id, i) ∈ geo_candidates d lat lng radius ↔
       issues d !! id = Some i
       ∧ (lat - radius <=? latitude i) = true
       ∧ (latitude i <=? lat + radius) = true
       ∧ (lng - radius <=? longitude i) = true
       ∧ (longitude i <=? lng + radius) = true)
  ∧ (∀ lo hi : float,
       (lo <=? hi) = true → between lo lo hi = true ∧ between hi lo hi = true).
Proof.
  split; [|apply between_ends].
  intros id i. unfold geo_candidates. rewrite elem_of_select_issues.
  unfold in_box. rewrite andb_true_iff, !between_spec. tauto.
Qed.

End GeoFilter.

(** The corner of the box is a candidate, although it is further than the
    radius from the centre. *)
Lemma geo_filter_inclusive_box_witness :
  (7%Z, Examples.corner_issue)
    ∈ geo_candidates Examples.corner_db 10%float 20%float search_radius
  ∧ between (10 + search_radius)%float (10 - search_radius)%float
            (10 + search_radius)%float = true.
Proof.
  split.
  - apply (proj1 (geo_filter_inclusive_box Examples.corner_db 10 20 search_radius)).
    repeat split; reflexivity.
  - apply (proj2 (geo_filter_inclusive_box Examples.corner_db 10 20 search_radius)
             (10 - search_radius)%float (10 + search_radius)%float).
    reflexivity.
Defined.

(** ** Dictionaries *)

Section Dict.
Context {V : Type}.
Implicit Types (d : dict V) (k : Z) (v : V).

Lemma dict_set_fresh k v d : k ∉ d.*1 → dict_set k v d = d ++ [(k, v)].
Proof.
  induction d as [|[k' v'] d IH]; simpl; [done|].
  intros Hk. apply not_elem_of_cons in Hk as [Hne Hk].
  destruct (decide (k' = k)); [congruence|]. by rewrite IH.
Qed.

(** Building a dict from items with distinct keys keeps the items. *)
Lemma foldl_dict_set (items : list (Z * V)) d :
  NoDup items.*1 → (∀ k, k ∈ items.*1 → k ∉ d.*1) →
  foldl (λ d kv, dict_set kv.1 kv.2 d) d items = d ++ items.
Proof.
  revert d. induction items as [|[k v] items IH]; intros d Hnd Hdis; simpl.
  - by rewrite app_nil_r.
  - apply NoDup_cons in Hnd as [Hk Hnd]. simpl in *.
    rewrite dict_set_fresh by (apply Hdis; left).
    rewrite IH; [by rewrite <- app_assoc|done|].
    intros k' Hk'. rewrite fmap_app, elem_of_app. simpl.
    rewrite list_elem_of_singleton. intros [Hin| ->]; [|done].
    by apply (Hdis k'); [right|].
Qed.

Lemma dict_of_items_NoDup (items : list (Z * V)) :
  NoDup items.*1 → dict_of_items items = items.
Proof.
  intros Hnd. unfold dict_of_items. rewrite foldl_dict_set; [done..|].
  intros k _. simpl. apply not_elem_of_nil.
Qed.

Lemma dict_get_Some k v d : dict_get k d = Some v → (k, v) ∈ d.
Proof.
  induction d as [|[k' v'] d IH]; simpl; [done|].
  destruct (decide (k' = k)) as [->|].
  - intros [= ->]. left.
  - intros H. right. auto.
Qed.

Lemma dict_get_elem_of k v d : NoDup d.*1 → (k, v) ∈ d → dict_get k d = Some v.
Proof.
  induction d as [|[k' v'] d IH]; simpl; intros Hnd Hin.
  - by apply elem_of_nil in Hin.
  - apply NoDup_cons in Hnd as [Hk Hnd].
    apply elem_of_cons in Hin as [[= <- <-]|Hin].
    + by rewrite decide_True.
    + rewrite decide_False; [auto|].
      intros ->. apply Hk. apply list_elem_of_fmap. by exists (k, v).
Qed.
End Dict.

(** ** The stable sort *)

Section SortedFacts.
Context {A : Type} (key : A → float).
Implicit Types (R : A → A → Prop) (l : list A) (x y : A).
Local Open Scope float_scope.

Lemma neighbours_nil R : neighbours R [].
Proof. intros [|] ????; discriminate. Qed.

Lemma neighbours_one R x : neighbours R [x].
Proof. intros [|? [|]] ????; discriminate. Qed.

Lemma neighbours_cons R x y l :
  R x y → neighbours R (y :: l) → neighbours R (x :: y :: l).
Proof.
  intros Hxy Hl [|c l1] a b l2 Heq; simpl in Heq.
  - by injection Heq as -> -> _.
  - injection Heq as -> Heq. by eapply Hl.
Qed.

Lemma neighbours_tail R x l : neighbours R (x :: l) → neighbours R l.
Proof. intros H l1 a b l2 ->. by apply (H (x :: l1) a b l2). Qed.

Lemma neighbours_head R x y l : neighbours R (x :: y :: l) → R x y.
Proof. intros H. by apply (H [] x y l). Qed.

Lemma neighbours_reverse R l : neighbours R l → neighbours (flip R) (reverse l).
Proof.
  intros H l1 a b l2 Heq. apply (H (reverse l2) b a (reverse l1)).
  rewrite <- (reverse_involutive l), Heq, reverse_app, !reverse_cons.
  by rewrite <- !app_assoc.
Qed.

Lemma insert_by_perm x l : insert_by key x l ≡ₚ x :: l.
Proof.
  induction l as [|y l IH]; simpl; [done|].
  destruct (key y <? key x); [|done]. rewrite IH. apply Permutation_swap.
Qed.

Lemma sort_by_perm l : sort_by key l ≡ₚ l.
Proof.
  induction l as [|x l IH]; simpl; [done|]. by rewrite insert_by_perm, IH.
Qed.

Lemma sorted_reverse_perm l : sorted_reverse key l ≡ₚ l.
Proof.
  unfold sorted_reverse.
  by rewrite reverse_Permutation, sort_by_perm, reverse_Permutation.
Qed.

Lemma insert_by_ascending x l :
  neighbours (ascending key) l → neighbours (ascending key) (insert_by key x l).
Proof.
  induction l as [|y l IH]; simpl; intros Hl.
  - apply neighbours_one.
  - destruct (key y <? key x) eqn:Hyx.
    + specialize (IH (neighbours_tail _ _ _ Hl)).
      destruct l as [|z l]; simpl in *.
      * apply neighbours_cons; [|apply neighbours_one].
        by apply FloatOrder.ltb_asym.
      * destruct (key z <? key x) eqn:Hzx.
        -- apply neighbours_cons; [|done]. by apply neighbours_head in Hl.
        -- apply neighbours_cons; [|done]. by apply FloatOrder.ltb_asym.
    + by apply neighbours_cons.
Qed.

Lemma sort_by_ascending l : neighbours (ascending key) (sort_by key l).
Proof.
  induction l as [|x l IH]; simpl.
  - apply neighbours_nil.
  - by apply insert_by_ascending.
Qed.

Lemma sorted_reverse_descending l :
  neighbours (λ a b, (key a <? key b) = false) (sorted_reverse key l).
Proof. apply (neighbours_reverse (ascending key)), sort_by_ascending. Qed.
End SortedFacts.

(** ** The similarity ranker *)

Section Ranker.
Local Open Scope float_scope.
Implicit Types (q : list float) (rows : list (Z * Issue)).

Lemma rows_functional rows id i1 i2 :
  NoDup rows.*1 → (id, i1) ∈ rows → (id, i2) ∈ rows → i1 = i2.
Proof.
  intros Hnd H1 H2.
  apply (dict_get_elem_of _ _ _ Hnd) in H1, H2. congruence.
Qed.

(** With distinct ids the similarity map is the list of the scored
    candidates, in the order of the candidates. *)
Lemma similarities_from_Ok q rows acc sims :
  NoDup rows.*1 → (∀ k, k ∈ rows.*1 → k ∉ acc.*1) →
  similarities_from q acc rows = Ok sims →
  sims = acc ++ omap (scored q) rows.
Proof.
  revert acc. induction rows as [|[id i] rows IH]; intros acc Hnd Hdis; simpl.
  - intros [= <-]. by rewrite app_nil_r.
  - apply NoDup_cons in Hnd as [Hid Hnd]. simpl in *.
    unfold scored at 1. simpl.
    destruct (truthy_embedding i) as [e|] eqn:He; simpl.
    + destruct (cosine_similarity q e) as [s|err] eqn:Hs; simpl; [|done].
      rewrite dict_set_fresh by (apply Hdis; left).
      intros H. apply IH in H; [by rewrite H, <- app_assoc|done|].
      intros k Hk. rewrite fmap_app, elem_of_app. simpl.
      rewrite list_elem_of_singleton. intros [Hin| ->]; [|done].
      by apply (Hdis k); [right|].
    + apply IH; [done|]. intros k Hk. apply Hdis. by right.
Qed.

Lemma similarities_Ok q rows sims :
  NoDup rows.*1 → similarities q rows = Ok sims → sims = omap (scored q) rows.
Proof.
  intros Hnd H. apply similarities_from_Ok in H; [done..|].
  intros k _. apply not_elem_of_nil.
Qed.

(** Candidates without an embedding play no part in the map, whatever the
    ids: the outcome (a map or an exception) is that of the list without
    them. *)
Lemma similarities_from_skip q rows acc :
  similarities_from q acc rows
  = similarities_from q acc
      (filter (λ row, is_Some (truthy_embedding row.2)) rows).
Proof.
  revert acc. induction rows as [|[id i] rows IH]; intros acc; [done|].
  rewrite filter_cons. simpl.
  destruct (truthy_embedding i) as [e|] eqn:He; simpl.
  - rewrite He. destruct (cosine_similarity q e); simpl; [apply IH|done].
  - apply IH.
Qed.

(** The map is computed whenever the embeddings have the query's length. *)
Lemma similarities_from_total q rows acc :
  (∀ row e, row ∈ rows → truthy_embedding row.2 = Some e → length e = length q) →
  ∃ sims, similarities_from q acc rows = Ok sims.
Proof.
  revert acc. induction rows as [|[id i] rows IH]; intros acc Hlen; simpl.
  - eauto.
  - destruct (truthy_embedding i) as [e|] eqn:He.
    + unfold cosine_similarity, np_dot.
      rewrite decide_True by (symmetry; apply (Hlen (id, i) e); [left|done]).
      simpl. apply IH. intros row e' Hin. apply Hlen. by right.
    + apply IH. intros row e' Hin. apply Hlen. by right.
Qed.

Lemma scored_Some q row entry :
  scored q row = Some entry ↔
    row.1 = entry.1
    ∧ ∃ e, truthy_embedding row.2 = Some e ∧ cosine_similarity q e = Ok entry.2.
Proof.
  unfold scored. destruct (truthy_embedding row.2) as [e|]; simpl.
  - destruct (cosine_similarity q e) as [s|err] eqn:Hs; split.
    + intros [= <-]. simpl. eauto.
    + intros [H1 (e' & [= <-] & H2)]. rewrite Hs in H2.
      destruct entry; simpl in *. congruence.
    + done.
    + intros [_ (e' & [= <-] & H2)]. congruence.
  - split; [done|]. intros [_ (e' & ? & _)]. done.
Qed.

(** What [rank] returns: the rows of the entries that pass the threshold,
    in the order [sorted] gives the entries. *)
Lemma rank_Ok q rows res :
  NoDup rows.*1 → rank q rows = Ok res →
  ∃ entries,
    Forall2 (ranked_under q rows) res entries
    ∧ entries ≡ₚ relevant_ids (omap (scored q) rows)
    ∧ neighbours (λ a b : Z * float, (a.2 <? b.2) = false) entries.
Proof.
  intros Hnd. unfold rank.
  destruct (similarities q rows) as [sims|err] eqn:Hsims; simpl; [|done].
  intros [= <-]. apply similarities_Ok in Hsims as ->; [|done].
  rewrite dict_of_items_NoDup by done.
  unfold sorted_ids.
  exists (sorted_reverse snd (relevant_ids (omap (scored q) rows))).
  split; [|split; [apply sorted_reverse_perm|apply sorted_reverse_descending]].
  assert (Forall (λ entry, ∃ i, (entry.1, i) ∈ rows
                    ∧ ranked_under q rows (entry.1, i) entry)
            (sorted_reverse snd (relevant_ids (omap (scored q) rows)))) as Hall.
  { apply Forall_forall. intros entry Hin.
    rewrite sorted_reverse_perm in Hin. unfold relevant_ids in Hin.
    apply list_elem_of_filter in Hin as [Hthr Hin].
    apply list_elem_of_omap in Hin as ([id i] & Hrow & Hsc).
    apply scored_Some in Hsc as [Hid (e & He & Hs)]. simpl in *. subst id.
    exists i. split; [done|]. split; [done|]. split; [done|]. eauto. }
  induction Hall as [|entry entries (i & Hin & Hr) _ IH]; simpl; [constructor|].
  rewrite (dict_get_elem_of _ _ _ Hnd Hin). simpl. by constructor.
Qed.

Lemma rank_total q rows :
  (∀ row e, row ∈ rows → truthy_embedding row.2 = Some e → length e = length q) →
  ∃ res, rank q rows = Ok res.
Proof.
  intros Hlen. unfold rank, similarities.
  destruct (similarities_from_total q rows [] Hlen) as [sims ->]. simpl. eauto.
Qed.

Lemma index_all_found rows (ids : list Z) :
  Forall (λ sid, is_Some (dict_get sid rows)) ids →
  foldr (λ sid acc,
           match dict_get sid rows with
           | Some issue => l ← acc; Ok ((sid, issue) :: l)
           | None => Raise (KeyError "sid")
           end)
        (Ok []) ids
  = Ok (omap (λ sid, pair sid <$> dict_get sid rows) ids).
Proof.
  induction 1 as [|sid ids [i Hi] _ IH]; simpl; [done|].
  rewrite Hi, IH. done.
Qed.

(** Version 1 indexes the map directly; on candidates with distinct ids the
    two versions return the same list. *)
Lemma rank_v1_agrees q rows :
  NoDup rows.*1 → V1.rank q rows = rank q rows.
Proof.
  intros Hnd. unfold V1.rank, rank.
  destruct (similarities q rows) as [sims|err] eqn:Hsims; simpl; [|done].
  apply similarities_Ok in Hsims as ->; [|done].
  rewrite dict_of_items_NoDup by done. unfold sorted_ids.
  apply index_all_found, Forall_fmap, Forall_forall. intros entry Hin. simpl.
  rewrite sorted_reverse_perm in Hin. unfold relevant_ids in Hin.
  apply list_elem_of_filter in Hin as [_ Hin].
  apply list_elem_of_omap in Hin as ([id i] & Hrow & Hsc).
  apply scored_Some in Hsc as [Hid _]. simpl in *. subst id.
  rewrite (dict_get_elem_of _ _ _ Hnd Hrow). eauto.
Qed.

End Ranker.

Section RankerProperties.
Local Open Scope float_scope.
Implicit Types (q : list float) (rows : list (Z * Issue)).

Lemma either_rank q rows res :
  NoDup rows.*1 → rank q rows = Ok res ∨ V1.rank q rows = Ok res →
  rank q rows = Ok res.
Proof. intros Hnd [H|H]; [done|]. by rewrite <- rank_v1_agrees. Qed.

Lemma ranked_rows_scored q rows res :
  NoDup rows.*1 → rank q rows = Ok res →
  ∀ row, row ∈ res →
    row ∈ rows
    ∧ ∃ e s, truthy_embedding row.2 = Some e
             ∧ cosine_similarity q e = Ok s
             ∧ (threshold <? s) = true.
Proof.
  intros Hnd Hrank row Hrow.
  apply rank_Ok in Hrank as (entries & Hall & _ & _); [|done].
  apply list_elem_of_lookup in Hrow as [k Hk].
  destruct (Forall2_lookup_l _ _ _ _ _ Hall Hk)
    as (entry & _ & _ & Hin & e & He & Hs & Hthr).
  split; [done|]. by exists e, entry.2.
Qed.

(** C2. For every set of candidates (rows with distinct ids) and every
    query embedding, each issue of the ranked list that [search] builds
    (in either version) is a candidate with a non-empty embedding whose
    cosine similarity to the query is strictly above the threshold 0.6;
    none has a similarity below or equal to 0.6. *)
Theorem ranker_above_threshold q rows res :
  NoDup rows.*1 →
  rank q rows = Ok res ∨ V1.rank q rows = Ok res →
  ∀ row, row ∈ res →
    row ∈ rows
    ∧ ∃ e s, truthy_embedding row.2 = Some e
             ∧ cosine_similarity q e = Ok s
             ∧ (threshold <? s) = true
             ∧ (s <=? threshold) = false.
Proof.
  intros Hnd Hrank row Hrow.
  apply either_rank in Hrank; [|done].
  destruct (ranked_rows_scored q rows res Hnd Hrank row Hrow)
    as (Hin & e & s & He & Hs & Hthr).
  split; [done|]. exists e, s. repeat split; try done.
  by apply FloatOrder.ltb_leb_false.
Qed.

(** C3. For every set of candidates and every query embedding, the ranked
    list is in descending order of cosine similarity: of two neighbouring
    results the earlier has a similarity above or equal to the later one's;
    and the list holds every candidate whose similarity is above the
    threshold. Nothing is stated about the order of equal similarities. *)
Theorem ranker_descending q rows res :
  NoDup rows.*1 →
  rank q rows = Ok res ∨ V1.rank q rows = Ok res →
  (∀ before r1 r2 after, res = before ++ r1 :: r2 :: after →
     ∃ e1 s1 e2 s2,
       truthy_embedding r1.2 = Some e1 ∧ cosine_similarity q e1 = Ok s1
       ∧ truthy_embedding r2.2 = Some e2 ∧ cosine_similarity q e2 = Ok s2
       ∧ (s2 <=? s1) = true)
  ∧ (∀ row e s, row ∈ rows → truthy_embedding row.2 = Some e →
       cosine_similarity q e = Ok s → (threshold <? s) = true → row ∈ res).
Proof.
  intros Hnd Hrank.
  apply either_rank in Hrank; [|done].
  apply rank_Ok in Hrank as (entries & Hall & Hperm & Hsorted); [|done].
  split.
  - intros before r1 r2 after ->.
    apply Forall2_app_inv_l in Hall as (eb & erest & _ & Hrest & ->).
    apply Forall2_cons_inv_l in Hrest as (x1 & erest' & H1 & Hrest & ->).
    apply Forall2_cons_inv_l in Hrest as (x2 & ea & H2 & _ & ->).
    destruct H1 as (_ & _ & e1 & He1 & Hs1 & Ht1).
    destruct H2 as (_ & _ & e2 & He2 & Hs2 & Ht2).
    exists e1, x1.2, e2, x2.2. repeat split; try done.
    apply FloatOrder.not_ltb_leb.
    + by eapply FloatOrder.ltb_not_nan_r.
    + by eapply FloatOrder.ltb_not_nan_r.
    + by apply (Hsorted eb x1 x2 ea).
  - intros [id i] e s Hrow He Hs Hthr. simpl in *.
    assert ((id, s) ∈ entries) as Hin.
    { rewrite Hperm. unfold relevant_ids.
      apply list_elem_of_filter. split; [done|].
      apply list_elem_of_omap. exists (id, i). split; [done|].
      apply scored_Some. simpl. eauto. }
    apply list_elem_of_lookup in Hin as [k Hk].
    destruct (Forall2_lookup_r _ _ _ _ _ Hall Hk)
      as ([id' i'] & Hk' & Hid & Hin' & _). simpl in *. subst id'.
    rewrite (rows_functional rows id i i' Hnd Hrow Hin').
    apply list_elem_of_lookup. eauto.
Qed.

End RankerProperties.

Lemma candidates_NoDup : NoDup Examples.candidates.*1.
Proof. apply (bool_decide_unpack _). reflexivity. Defined.

Lemma ranker_above_threshold_witness :
  NoDup Examples.candidates.*1
  ∧ rank Examples.query_vector Examples.candidates = Ok Examples.ranked
  ∧ ∃ e s, truthy_embedding Examples.issue_d = Some e
           ∧ cosine_similarity Examples.query_vector e = Ok s
           ∧ (threshold <? s)%float = true
           ∧ (s <=? threshold)%float = false.
Proof.
  split; [exact candidates_NoDup|]. split; [reflexivity|].
  apply (ranker_above_threshold Examples.query_vector Examples.candidates
           Examples.ranked candidates_NoDup (or_introl eq_refl)
           (4%Z, Examples.issue_d)).
  right. left.
Defined.

Lemma ranker_descending_witness :
  NoDup Examples.candidates.*1
  ∧ V1.rank Examples.query_vector Examples.candidates = Ok Examples.ranked
  ∧ ∃ e1 s1 e2 s2,
      truthy_embedding Examples.issue_a = Some e1
      ∧ cosine_similarity Examples.query_vector e1 = Ok s1
      ∧ truthy_embedding Examples.issue_d = Some e2
      ∧ cosine_similarity Examples.query_vector e2 = Ok s2
      ∧ (s2 <=? s1)%float = true.
Proof.
  split; [exact candidates_NoDup|]. split; [reflexivity|].
  apply (proj1 (ranker_descending Examples.query_vector Examples.candidates
                  Examples.ranked candidates_NoDup (or_intror eq_refl))
           [] (1%Z, Examples.issue_a) (4%Z, Examples.issue_d) []).
  reflexivity.
Defined.

(** ** The ranker inside [search] *)

Section SearchHandler.
Local Open Scope float_scope.

(** With a text query, what [search] renders is empty or is the ranking,
    under the query's embedding, of stored issues (rows with distinct
    ids). *)
Lemma search_results_are_ranked svc d (text loc : string) res flashes :
  search svc d text loc = Ok (SearchResults res flashes) →
  str_truthy (py_strip text) = true →
  res = []
  ∨ ∃ qv rows,
      NoDup rows.*1
      ∧ (∀ row, row ∈ rows → issues d !! row.1 = Some row.2)
      ∧ generate_embedding svc (py_strip text) "RETRIEVAL_QUERY" = Some qv
      ∧ rank qv rows = Ok res.
Proof.
  intros Hsearch Hq. unfold search in Hsearch. rewrite Hq in Hsearch.
  simpl in Hsearch.
  assert (∀ P,
            (if list_truthy (select_issues P d)
             then match generate_embedding svc (py_strip text) "RETRIEVAL_QUERY" with
                  | Some (x :: v) =>
                      ranked ← rank (x :: v) (select_issues P d);
                      Ok (SearchResults ranked [])
                  | _ => Ok (SearchResults [] [])
                  end
             else Ok (SearchResults (select_issues P d) []))
            = Ok (SearchResults res flashes) →
            res = []
            ∨ ∃ qv rows,
                NoDup rows.*1
                ∧ (∀ row, row ∈ rows → issues d !! row.1 = Some row.2)
                ∧ generate_embedding svc (py_strip text) "RETRIEVAL_QUERY" = Some qv
                ∧ rank qv rows = Ok res) as Hcase.
  { intros P H.
    destruct (select_issues P d) as [|row rows] eqn:Hrows; simpl in H.
    { injection H as <- _. by left. }
    destruct (generate_embedding svc _ _) as [[|x v]|] eqn:Hemb;
      try (injection H as <- _; by left).
    destruct (rank (x :: v) (row :: rows)) as [ranked|e] eqn:Hrank;
      simpl in H; [|done].
    injection H as <- _. right. exists (x :: v), (row :: rows).
    rewrite <- Hrows in *. split; [apply NoDup_select_issues|].
    split; [|done]. intros [id i] Hin.
    by apply elem_of_select_issues in Hin as [? _]. }
  destruct (str_truthy (py_strip loc)).
  - destruct (get_coords_for_location svc _) as [[lat lng]|].
    + by apply (Hcase (in_box lat lng search_radius)).
    + injection Hsearch as <- _. by left.
  - by apply (Hcase (λ _, true)).
Qed.

(** Hence every issue that a text search shows has a similarity to the
    query strictly above 0.6. *)
Lemma search_results_above_threshold svc d (text loc : string) res flashes :
  search svc d text loc = Ok (SearchResults res flashes) →
  str_truthy (py_strip text) = true →
  ∀ row, row ∈ res →
    ∃ qv e s,
      generate_embedding svc (py_strip text) "RETRIEVAL_QUERY" = Some qv
      ∧ truthy_embedding row.2 = Some e
      ∧ cosine_similarity qv e = Ok s
      ∧ (threshold <? s) = true.
Proof.
  intros Hsearch Hq row Hrow.
  destruct (search_results_are_ranked _ _ _ _ _ _ Hsearch Hq)
    as [->|(qv & rows & Hnd & _ & Hemb & Hrank)].
  - by apply elem_of_nil in Hrow.
  - destruct (ranked_rows_scored qv rows res Hnd Hrank row Hrow)
      as (_ & e & s & He & Hs & Hthr).
    by exists qv, e, s.
Qed.

End SearchHandler.

(** ** Missing and degenerate embeddings *)

(** C9. The cosine similarity has no guard for a zero vector: with a zero
    query vector, or a zero candidate vector, the divisor (the product of
    the two norms) is zero and the quotient is not a number (0/0); no
    exception is raised, the value is not 0, and the candidate is entered in
    the similarity map under that NaN instead of being skipped. *)
Theorem cosine_similarity_zero_vector :
  (np_norm Examples.zero_vector * np_norm Examples.query_vector)%float = 0%float
  ∧ (∃ s, cosine_similarity Examples.zero_vector Examples.query_vector = Ok s
          ∧ is_nan s = true)
  ∧ (∃ s, cosine_similarity Examples.query_vector Examples.zero_vector = Ok s
          ∧ is_nan s = true)
  ∧ (∃ s, similarities Examples.query_vector [(9%Z, Examples.issue_zero)]
            = Ok [(9%Z, s)]
          ∧ is_nan s = true ∧ (s =? 0)%float = false).
Proof.
  split; [reflexivity|].
  repeat split; eexists; (split; [reflexivity|]); try split; reflexivity.
Qed.

Section MissingEmbeddings.
Implicit Types (q : list float) (rows : list (Z * Issue)).

Lemma similarities_from_none q rows acc :
  (∀ row, row ∈ rows → truthy_embedding row.2 = None) →
  similarities_from q acc rows = Ok acc.
Proof.
  induction rows as [|[id i] rows IH]; intros Hnone; simpl; [done|].
  assert (truthy_embedding i = None) as -> by (apply (Hnone (id, i)); left).
  apply IH.
  intros row Hrow. apply Hnone. by right.
Qed.

Lemma rank_none q rows :
  (∀ row, row ∈ rows → truthy_embedding row.2 = None) → rank q rows = Ok [].
Proof.
  intros Hnone. unfold rank, similarities.
  by rewrite similarities_from_none.
Qed.

(** The handlers never store an embedding. *)
Lemma produced_no_embedding svc d :
  produced svc d → ∀ id i, issues d !! id = Some i → embedding i = None.
Proof.
  induction 1 as [d Hempty
                 |d user form lat lng d' r _ IH Hstep
                 |d user iid d' r _ IH Hstep
                 |d user iid field d' r _ IH Hstep
                 |d user iid field d' r _ IH Hstep]; intros id i Hi.
  - by rewrite Hempty, lookup_empty in Hi.
  - unfold report_issue, not_null in Hstep.
    destruct (users d !! user); [|simplify_eq; eauto].
    destruct (negb _); [simplify_eq; eauto|].
    destruct lat as [la|], lng as [lo|]; try (simplify_eq; eauto).
    destruct (str_truthy _); [destruct (json_loads _ _)|];
      simpl in Hstep; try done;
      (destruct (PrimFloat.is_nan la); [done|]);
      (destruct (PrimFloat.is_nan lo); [done|]);
      simplify_eq/=;
      apply lookup_insert_Some in Hi as [[_ <-]|[_ Hi]]; eauto.
  - unfold upvote in Hstep. unfold no_reporter in Hstep.
    repeat case_match; simplify_eq/=; eauto;
      apply lookup_insert_Some in Hi as [[_ <-]|[_ Hi]]; simpl; eauto.
  - unfold update_status in Hstep. unfold no_reporter, upvoters_query in Hstep.
    repeat case_match; simplify_eq/=; eauto.
  - unfold V1.update_status in Hstep. unfold no_reporter in Hstep.
    repeat case_match; simplify_eq/=; eauto;
      apply lookup_insert_Some in Hi as [[_ <-]|[_ Hi]]; simpl; eauto.
Qed.

Lemma truthy_embedding_None (i : Issue) :
  embedding i = None → truthy_embedding i = None.
Proof. unfold truthy_embedding. by intros ->. Qed.

(** C8. A candidate whose embedding is null (or empty) is skipped without
    an error: the similarity map, and any exception, are those of the
    candidates that have an embedding; among candidates with distinct ids
    its id is no key of the map and it is not in the ranked list. No
    handler stores an embedding, so on every database that the handlers
    produce a search with a text query returns an empty result list. *)
Theorem missing_embeddings_are_skipped :
  (∀ q rows,
     similarities q rows
     = similarities q (filter (λ row, is_Some (truthy_embedding row.2)) rows))
  ∧ (∀ q rows id i,
       NoDup rows.*1 → (id, i) ∈ rows → truthy_embedding i = None →
       (∀ sims, similarities q rows = Ok sims → id ∉ sims.*1)
       ∧ (∀ res, rank q rows = Ok res → id ∉ res.*1))
  ∧ (∀ svc d (text loc : string),
       produced svc d → str_truthy (py_strip text) = true →
       ∃ flashes, search svc d text loc = Ok (SearchResults [] flashes)).
Proof.
  split; [|split].
  - intros q rows. apply similarities_from_skip.
  - intros q rows id i Hnd Hin Hnone. split.
    + intros sims Hsims Hkey.
      apply similarities_Ok in Hsims as ->; [|done].
      apply list_elem_of_fmap in Hkey as ([id' s] & -> & Hentry). simpl in *.
      apply list_elem_of_omap in Hentry as ([id'' i'] & Hrow & Hsc).
      apply scored_Some in Hsc as [Hid (e & He & _)]. simpl in *. subst id''.
      rewrite (rows_functional rows id' i i' Hnd Hin Hrow) in Hnone. congruence.
    + intros res Hres Hkey.
      apply list_elem_of_fmap in Hkey as ([id' i'] & -> & Hrow). simpl in *.
      destruct (ranked_rows_scored q rows res Hnd Hres _ Hrow)
        as (Hrow' & e & s & He & _). simpl in *.
      rewrite (rows_functional rows id' i i' Hnd Hin Hrow') in Hnone. congruence.
  - intros svc d text loc Hd Hq. unfold search. rewrite Hq. simpl.
    assert (∀ P row, row ∈ select_issues P d → truthy_embedding row.2 = None)
      as Hnone.
    { intros P [id i] Hrow. apply elem_of_select_issues in Hrow as [Hi _].
      apply truthy_embedding_None. eapply produced_no_embedding; eauto. }
    assert (∀ P, ∃ flashes,
              (if list_truthy (select_issues P d)
               then match generate_embedding svc (py_strip text) "RETRIEVAL_QUERY" with
                    | Some (x :: v) =>
                        ranked ← rank (x :: v) (select_issues P d);
                        Ok (SearchResults ranked [])
                    | _ => Ok (SearchResults [] [])
                    end
               else Ok (SearchResults (select_issues P d) []))
              = Ok (SearchResults [] flashes)) as Hrank.
    { intros P. exists [].
      destruct (select_issues P d) as [|row rows] eqn:Hrows; simpl; [done|].
      destruct (generate_embedding svc _ _) as [[|x v]|]; try done.
      rewrite rank_none; [done|]. rewrite <- Hrows. apply Hnone. }
    destruct (str_truthy (py_strip loc)).
    + destruct (get_coords_for_location svc _) as [[lat lng]|]; [|eauto].
      apply Hrank.
    + apply Hrank.
Qed.

End MissingEmbeddings.

(** ** The duplicate detector *)

Section DuplicateDetector.
Implicit Types (svc : Services) (t : list event).

Lemma find_duplicate_issue_empty svc description t :
  find_duplicate_issue svc description [] t = (Ok not_duplicate, t).
Proof. reflexivity. Qed.

(** C6. The duplicate detector fails soft. For every description and every
    non-empty candidate list, when the call to the classifier raises, or
    its answer cannot be parsed as JSON, [find_duplicate_issue] returns
    [{'is_duplicate': False}] (after one call and one line in the error
    log); and on no input at all does it raise to its caller. *)
Theorem find_duplicate_issue_fails_soft :
  (∀ svc description existing t,
     existing ≠ [] →
     (∃ e, gemini_generate svc (duplicate_prompt svc description existing) = Raise e)
     ∨ (∃ text e,
          gemini_generate svc (duplicate_prompt svc description existing) = Ok text
          ∧ json_loads svc (clean_response text) = Raise e) →
     ∃ msg,
       find_duplicate_issue svc description existing t
       = (Ok not_duplicate,
          t ++ [CallClassifier (duplicate_prompt svc description existing);
                LogError msg]))
  ∧ (∀ svc description existing t,
       ∃ answer t', find_duplicate_issue svc description existing t = (Ok answer, t')).
Proof.
  split.
  - intros svc description [|x existing] t Hne Hfail; [done|].
    unfold find_duplicate_issue, try_except, call_classifier. simpl.
    unfold mbind, eff_bind, emit, lift, mret, eff_ret. simpl.
    destruct Hfail as [[e ->]|(text & e & -> & ->)];
      rewrite <- app_assoc; simpl; eauto.
  - intros svc description [|x existing] t; [by eexists _, _|].
    unfold find_duplicate_issue, try_except, call_classifier. simpl.
    unfold mbind, eff_bind, emit, lift, mret, eff_ret. simpl.
    destruct (gemini_generate svc _) as [text|e]; [|by eexists _, _].
    destruct (json_loads svc _) as [answer|e]; by eexists _, _.
Qed.

(** C7. For every description, a duplicate check whose candidate list (the
    issues in the box of radius 0.001 around the given point) is empty
    answers [{'is_duplicate': False}] and leaves the trace as it was: the
    classifier is not called, nothing is logged. So does the detector
    itself on an empty list. *)
Theorem check_duplicates_without_candidates svc d lat lng description t :
  geo_candidates d lat lng duplicate_radius = [] →
  check_duplicates svc d (Some (lat, lng)) description t
  = (Ok (JsonResponse 200 not_duplicate), t)
  ∧ find_duplicate_issue svc description [] t = (Ok not_duplicate, t).
Proof.
  intros Hnone. split; [|reflexivity].
  unfold check_duplicates. by rewrite Hnone.
Qed.

End DuplicateDetector.

Lemma find_duplicate_issue_fails_soft_witness :
  (∃ msg,
     find_duplicate_issue Examples.services "a hole" [JNull] []
     = (Ok not_duplicate,
        [CallClassifier (duplicate_prompt Examples.services "a hole" [JNull]);
         LogError msg]))
  ∧ (∃ msg,
       find_duplicate_issue Examples.chatty_services "a hole" [JNull] []
       = (Ok not_duplicate,
          [CallClassifier (duplicate_prompt Examples.chatty_services "a hole" [JNull]);
           LogError msg])).
Proof.
  split.
  - apply (proj1 find_duplicate_issue_fails_soft Examples.services "a hole"
             [JNull] []); [discriminate|].
    left. eexists. reflexivity.
  - apply (proj1 find_duplicate_issue_fails_soft Examples.chatty_services "a hole"
             [JNull] []); [discriminate|].
    right. eexists _, _. split; reflexivity.
Defined.

Lemma check_duplicates_without_candidates_witness :
  geo_candidates Examples.corner_db 0%float 0%float duplicate_radius = []
  ∧ check_duplicates Examples.services Examples.corner_db (Some (0, 0)%float)
      "a hole" []
    = (Ok (JsonResponse 200 not_duplicate), []).
Proof.
  split; [reflexivity|].
  apply (check_duplicates_without_candidates Examples.services Examples.corner_db
           0%float 0%float "a hole" []).
  reflexivity.
Defined.

Lemma missing_embeddings_are_skipped_witness :
  (2%Z ∉ Examples.ranked.*1)
  ∧ ∃ d r,
      report_issue Examples.services Examples.empty_db 1 Examples.form
        (Some 10%float) (Some 20%float) = Ok (d, r)
      ∧ size (issues d) = 1
      ∧ ∃ flashes,
          search Examples.services d "pothole" "" = Ok (SearchResults [] flashes).
Proof.
  split.
  - apply (proj2 (proj1 (proj2 missing_embeddings_are_skipped)
             Examples.query_vector Examples.candidates 2%Z Examples.issue_b
             candidates_NoDup ltac:(right; left) eq_refl) Examples.ranked).
    reflexivity.
  - eexists _, _. split; [reflexivity|]. split; [reflexivity|].
    apply (proj2 (proj2 missing_embeddings_are_skipped)); [|reflexivity].
    eapply (produced_report _ Examples.empty_db 1 Examples.form
              (Some 10%float) (Some 20%float)); [|reflexivity].
    apply produced_init. reflexivity.
Defined.

(** ** Votes and reputation *)

Section FilterSize.
Context {V : Type} (P : Z * V → Prop) `{!∀ kv, Decision (P kv)}.
Implicit Types (m : gmap Z V).

Lemma size_filter_delete m k v :
  m !! k = Some v → P (k, v) →
  S (size (filter P (delete k m))) = size (filter P m).
Proof.
  intros Hk HP.
  assert (filter P m !! k = Some v) as Hf by by apply map_lookup_filter_Some_2.
  rewrite map_filter_delete, map_size_delete, Hf.
  destruct (size (filter P m)) eqn:Hsize; [|done].
  apply map_size_empty_inv in Hsize. by rewrite Hsize, lookup_empty in Hf.
Qed.

Lemma filter_delete_other m k v :
  m !! k = Some v → ¬ P (k, v) → filter P (delete k m) = filter P m.
Proof.
  intros Hk HP. apply map_filter_delete_not. intros y Hy. congruence.
Qed.

Lemma size_filter_insert m k v :
  m !! k = None → P (k, v) →
  size (filter P (<[k := v]> m)) = S (size (filter P m)).
Proof.
  intros Hk HP. rewrite map_filter_insert_True by done.
  apply map_size_insert_None, map_lookup_filter_None_2. by left.
Qed.

Lemma filter_insert_other m k v :
  m !! k = None → ¬ P (k, v) → filter P (<[k := v]> m) = filter P m.
Proof.
  intros Hk HP. apply map_filter_insert_not'; [done|]. intros y Hy. congruence.
Qed.
End FilterSize.

Section Votes.
Local Open Scope Z_scope.
Implicit Types (d : Db) (user iid : Z).

Lemma new_id_fresh {V} (table : gmap Z V) : table !! new_id table = None.
Proof. apply not_elem_of_dom, is_fresh. Qed.

Lemma existing_upvote_Some d user iid k v :
  existing_upvote d user iid = Some (k, v) →
  upvotes d !! k = Some v ∧ voter_id v = user ∧ issue_id v = iid.
Proof.
  unfold existing_upvote, votes_of. intros H.
  apply head_Some_elem_of, elem_of_map_to_list in H.
  by apply map_lookup_filter_Some in H.
Qed.

Lemma existing_upvote_None d user iid :
  existing_upvote d user iid = None → votes_of d user iid = ∅.
Proof.
  unfold existing_upvote. intros H.
  by apply head_None, map_to_list_empty_iff in H.
Qed.

(** What a completed [upvote] did to the rows and the count of [iid]. *)
Lemma upvote_effect d user iid issue d' r :
  issues d !! iid = Some issue → upvote d user iid = Ok (d', r) →
  (∀ j, j ≠ iid → issues d' !! j = issues d !! j ∧ votes_on d' j = votes_on d j)
  ∧ ((issues d' !! iid = Some (set_upvote_count (or_zero (upvote_count issue) + 1) issue)
      ∧ vote_records d' iid = S (vote_records d iid))
     ∨ (issues d' !! iid = Some (set_upvote_count (or_zero (upvote_count issue) - 1) issue)
        ∧ S (vote_records d' iid) = vote_records d iid)).
Proof.
  intros Hissue. unfold upvote, no_reporter. rewrite Hissue.
  destruct (users d !! reporter_id issue) as [reporter|]; [|done].
  destruct (existing_upvote d user iid) as [[k v]|] eqn:Hex; intros [= <- <-];
    unfold vote_records, votes_on; simpl.
  - apply existing_upvote_Some in Hex as (Hk & _ & Hv). split.
    + intros j Hj. rewrite lookup_insert_ne by done. split; [done|].
      eapply filter_delete_other; [done|]. simpl. congruence.
    + right. rewrite lookup_insert_eq. split; [done|].
      by eapply size_filter_delete.
  - pose proof (new_id_fresh (upvotes d)) as Hfresh. split.
    + intros j Hj. rewrite lookup_insert_ne by done. split; [done|].
      apply filter_insert_other; [done|]. simpl. congruence.
    + left. rewrite lookup_insert_eq. split; [done|].
      by apply size_filter_insert.
Qed.

(** C10. The vote count stays consistent with the stored votes. A
    completed vote toggle either adds one Upvote row for the issue and
    stores the count (read with unset as 0) plus one, or deletes one row
    and stores the count minus one; hence, for every issue, if the count
    agreed with the number of stored rows before the toggle it agrees with
    it afterwards, and the count stored for the toggled issue is then
    exactly the number of its rows. *)
Theorem upvote_keeps_count_consistent d user iid d' r :
  upvote d user iid = Ok (d', r) →
  (∀ issue, issues d !! iid = Some issue →
     ∃ issue', issues d' !! iid = Some issue'
       ∧ ((upvote_count issue' = Some (or_zero (upvote_count issue) + 1)
           ∧ vote_records d' iid = S (vote_records d iid))
          ∨ (upvote_count issue' = Some (or_zero (upvote_count issue) - 1)
             ∧ S (vote_records d' iid) = vote_records d iid)))
  ∧ (∀ j, count_consistent d j → count_consistent d' j)
  ∧ (∀ issue, issues d !! iid = Some issue → count_consistent d iid →
       ∃ issue', issues d' !! iid = Some issue'
         ∧ upvote_count issue' = Some (Z.of_nat (vote_records d' iid))).
Proof.
  intros Hup. split; [|split].
  - intros issue Hissue.
    destruct (upvote_effect d user iid issue d' r Hissue Hup)
      as [_ [[Hi Hn]|[Hi Hn]]]; eexists; (split; [exact Hi|]); simpl; auto.
  - intros j Hj issue' Hissue'.
    destruct (issues d !! iid) as [issue|] eqn:Hissue.
    + destruct (upvote_effect d user iid issue d' r Hissue Hup) as [Hother Hthis].
      destruct (decide (j = iid)) as [->|Hne].
      * specialize (Hj issue Hissue).
        destruct Hthis as [[Hi Hn]|[Hi Hn]];
          rewrite Hi in Hissue'; injection Hissue' as <-; simpl; lia.
      * destruct (Hother j Hne) as [Hi Hv].
        unfold vote_records. rewrite Hv. apply Hj. by rewrite <- Hi.
    + unfold upvote in Hup. rewrite Hissue in Hup. injection Hup as <- _.
      by apply Hj.
  - intros issue Hissue Hcons. specialize (Hcons issue Hissue).
    destruct (upvote_effect d user iid issue d' r Hissue Hup)
      as [_ [[Hi Hn]|[Hi Hn]]]; eexists; (split; [exact Hi|]); simpl;
      f_equal; lia.
Qed.

End Votes.

Lemma upvote_keeps_count_consistent_witness :
  (∃ d' r, upvote Examples.corner_db 2 7 = Ok (d', r)
           ∧ count_consistent d' 7).
Proof.
  eexists _, _. split; [reflexivity|].
  apply (proj1 (proj2 (upvote_keeps_count_consistent Examples.corner_db 2 7 _ _ eq_refl))
           7%Z).
  intros issue [= <-]. reflexivity.
Defined.

Section Toggle.
Local Open Scope Z_scope.
Implicit Types (d : Db) (user iid : Z).

Lemma upvote_adds d user iid issue reporter :
  issues d !! iid = Some issue → users d !! reporter_id issue = Some reporter →
  existing_upvote d user iid = None →
  upvote d user iid
  = Ok (mkDb (<[reporter_id issue :=
                 set_reputation (Some (or_zero (reputation_points reporter) + 2))
                                reporter]> (users d))
             (<[iid := set_upvote_count (or_zero (upvote_count issue) + 1) issue]>
                (issues d))
             (<[new_id (upvotes d) := mkUpvote user iid]> (upvotes d))
             (notifications d),
        upvote_response (or_zero (upvote_count issue) + 1) true).
Proof. intros Hi Hr He. unfold upvote. by rewrite Hi, Hr, He. Qed.

Lemma upvote_removes d user iid issue reporter k v :
  issues d !! iid = Some issue → users d !! reporter_id issue = Some reporter →
  existing_upvote d user iid = Some (k, v) →
  upvote d user iid
  = Ok (mkDb (<[reporter_id issue :=
                 set_reputation (Some (or_zero (reputation_points reporter) - 2))
                                reporter]> (users d))
             (<[iid := set_upvote_count (or_zero (upvote_count issue) - 1) issue]>
                (issues d))
             (delete k (upvotes d))
             (notifications d),
        upvote_response (or_zero (upvote_count issue) - 1) false).
Proof. intros Hi Hr He. unfold upvote. by rewrite Hi, Hr, He. Qed.

(** The user's vote state after a vote and after an un-vote. *)
Lemma existing_after_add d user iid u (tbl : gmap Z Issue) ns :
  existing_upvote d user iid = None →
  existing_upvote (mkDb u tbl (<[new_id (upvotes d) := mkUpvote user iid]> (upvotes d)) ns)
                  user iid
  = Some (new_id (upvotes d), mkUpvote user iid).
Proof.
  intros He. apply existing_upvote_None in He.
  unfold existing_upvote, votes_of in *. simpl.
  rewrite map_filter_insert_True by done.
  by rewrite He, insert_empty, map_to_list_singleton.
Qed.

Lemma existing_after_remove d user iid k v u (tbl : gmap Z Issue) ns :
  (size (votes_of d user iid) ≤ 1)%nat →
  existing_upvote d user iid = Some (k, v) →
  existing_upvote (mkDb u tbl (delete k (upvotes d)) ns) user iid = None.
Proof.
  intros Hone He. apply existing_upvote_Some in He as (Hk & Hu & Hi).
  unfold existing_upvote, votes_of in *. simpl.
  apply head_None, map_to_list_empty_iff, map_size_empty_inv.
  pose proof (size_filter_delete
                (λ kv : Z * Upvote, voter_id kv.2 = user ∧ issue_id kv.2 = iid)
                (upvotes d) k v Hk (conj Hu Hi)) as Hsize.
  lia.
Qed.

(** C4, in the form that holds of the code. When the user holds at most
    one Upvote row for the issue, two vote toggles in succession by that
    user complete and leave the issue's count and the reporter's points at
    the values they had before, an unset value being read, and stored
    back, as 0; the number of rows stored for the issue is the same
    again. *)
Theorem upvote_twice_restores d user iid issue reporter :
  issues d !! iid = Some issue →
  users d !! reporter_id issue = Some reporter →
  (size (votes_of d user iid) ≤ 1)%nat →
  ∃ d2, upvote_twice d user iid = Ok d2
    ∧ stored_count d2 iid = Some (Some (or_zero (upvote_count issue)))
    ∧ stored_points d2 (reporter_id issue)
      = Some (Some (or_zero (reputation_points reporter)))
    ∧ vote_records d2 iid = vote_records d iid.
Proof.
  intros Hi Hr Hone. unfold upvote_twice.
  destruct (existing_upvote d user iid) as [[k v]|] eqn:He.
  - rewrite (upvote_removes d user iid issue reporter k v) by done. simpl.
    erewrite upvote_adds;
      [|simpl; apply lookup_insert_eq|simpl; apply lookup_insert_eq
       |by eapply existing_after_remove].
    simpl. eexists. split; [done|].
    unfold stored_count, stored_points, vote_records, votes_on. simpl.
    rewrite !lookup_insert_eq. simpl.
    apply existing_upvote_Some in He as (Hk & _ & Hv).
    repeat split; [do 2 f_equal; lia..|].
    rewrite size_filter_insert by (done || apply new_id_fresh).
    by eapply size_filter_delete.
  - rewrite (upvote_adds d user iid issue reporter) by done. simpl.
    erewrite upvote_removes;
      [|simpl; apply lookup_insert_eq|simpl; apply lookup_insert_eq
       |by apply existing_after_add].
    simpl. eexists. split; [done|].
    unfold stored_count, stored_points, vote_records, votes_on. simpl.
    rewrite !lookup_insert_eq. simpl.
    repeat split; [do 2 f_equal; lia..|].
    by rewrite delete_insert_id by apply new_id_fresh.
Qed.

(** The toggle keeps the invariant assumed above. *)
Lemma upvote_keeps_single_vote d user iid d' r :
  upvote d user iid = Ok (d', r) →
  (size (votes_of d user iid) ≤ 1)%nat → (size (votes_of d' user iid) ≤ 1)%nat.
Proof.
  unfold upvote, no_reporter.
  destruct (issues d !! iid) as [issue|]; [|by intros [= <- _]].
  destruct (users d !! reporter_id issue) as [reporter|]; [|done].
  destruct (existing_upvote d user iid) as [[k v]|] eqn:He;
    intros [= <- _] Hone; unfold votes_of in *; simpl.
  - apply existing_upvote_Some in He as (Hk & Hu & Hi).
    pose proof (size_filter_delete
                  (λ kv : Z * Upvote, voter_id kv.2 = user ∧ issue_id kv.2 = iid)
                  (upvotes d) k v Hk (conj Hu Hi)). lia.
  - apply existing_upvote_None in He. unfold votes_of in He.
    rewrite size_filter_insert by (done || apply new_id_fresh).
    by rewrite He, map_size_empty.
Qed.

(** C5. Both versions set out to grant 20 points for 'Resolved', and
    Version 2 does not get there. For a moderator's status update to
    'Resolved' on an
    issue whose reporter has [points] points: Version 1 completes, stores
    the status and leaves the reporter with [points + 20]; Version 2,
    which computes the same sum, raises [InvalidRequestError] at its query
    for the voters, before the commit, so that neither the status nor the
    points are stored. *)
Theorem resolved_grants_twenty d me iid moderator issue reporter points :
  users d !! me = Some moderator → is_moderator moderator = true →
  issues d !! iid = Some issue →
  users d !! reporter_id issue = Some reporter →
  reputation_points reporter = Some points →
  (∃ d' r, V1.update_status d me iid (Some "Resolved") = Ok (d', r)
     ∧ stored_points d' (reporter_id issue) = Some (Some (points + 20))
     ∧ status <$> issues d' !! iid = Some "Resolved")
  ∧ (∃ msg, update_status d me iid (Some "Resolved")
            = Raise (InvalidRequestError msg)).
Proof.
  intros Hme Hmod Hi Hr Hp. split.
  - unfold V1.update_status. rewrite Hme, Hmod, Hi, Hr, Hp. simpl.
    eexists _, _. split; [reflexivity|].
    unfold stored_points. simpl. by rewrite !lookup_insert_eq.
  - unfold update_status, upvoters_query. rewrite Hme, Hmod, Hi, Hr. simpl.
    by eexists.
Qed.

End Toggle.

Lemma upvote_twice_restores_witness :
  (issues Examples.corner_db !! 7%Z = Some Examples.corner_issue
   ∧ users Examples.corner_db !! 1%Z = Some Examples.reporter
   ∧ (size (votes_of Examples.corner_db 2 7) ≤ 1)%nat
   ∧ ∃ d2, upvote_twice Examples.corner_db 2 7 = Ok d2
       ∧ stored_count d2 7 = Some (Some 0%Z)
       ∧ stored_points d2 1 = Some (Some 0%Z)
       ∧ vote_records d2 7 = vote_records Examples.corner_db 7)
  ∧ ((size (votes_of Examples.voted_db 2 7) ≤ 1)%nat
     ∧ ∃ d2, upvote_twice Examples.voted_db 2 7 = Ok d2
         ∧ stored_count d2 7 = Some (Some 1%Z)
         ∧ stored_points d2 1 = Some (Some 2%Z)
         ∧ vote_records d2 7 = vote_records Examples.voted_db 7).
Proof.
  assert ((size (votes_of Examples.corner_db 2 7) ≤ 1)%nat) as Hnone
    by (vm_compute; lia).
  assert ((size (votes_of Examples.voted_db 2 7) ≤ 1)%nat) as Hone
    by (vm_compute; lia).
  split; [split; [reflexivity|split; [reflexivity|split; [exact Hnone|]]]
         |split; [exact Hone|]].
  - exact (upvote_twice_restores Examples.corner_db 2 7 Examples.corner_issue
             Examples.reporter eq_refl eq_refl Hnone).
  - exact (upvote_twice_restores Examples.voted_db 2 7 _ _ eq_refl eq_refl Hone).
Defined.

(** C4 as the specification words it fails on an unset count (after two
    toggles the count and the points are 0, not unset), and on a user who
    holds two rows for the issue (both toggles remove a vote). *)
Lemma upvote_twice_not_identity :
  (∃ d2, upvote_twice Examples.unset_db 2 7 = Ok d2
     ∧ stored_count Examples.unset_db 7 = Some None
     ∧ stored_count d2 7 = Some (Some 0%Z)
     ∧ stored_points Examples.unset_db 1 = Some None
     ∧ stored_points d2 1 = Some (Some 0%Z))
  ∧ (∃ d2, upvote_twice Examples.double_vote_db 2 7 = Ok d2
       ∧ stored_count Examples.double_vote_db 7 = Some (Some 2%Z)
       ∧ stored_count d2 7 = Some (Some 0%Z)
       ∧ stored_points Examples.double_vote_db 1 = Some (Some 0%Z)
       ∧ stored_points d2 1 = Some (Some (-4)%Z)).
Proof. split; eexists; repeat split; reflexivity. Qed.

Lemma resolved_grants_twenty_witness :
  stored_points Examples.corner_db 1 = Some (Some 0%Z)
  ∧ (∃ d' r, V1.update_status Examples.corner_db 2 7 (Some "Resolved") = Ok (d', r)
       ∧ stored_points d' 1 = Some (Some 20%Z)
       ∧ status <$> issues d' !! 7%Z = Some "Resolved")
  ∧ (∃ msg, update_status Examples.corner_db 2 7 (Some "Resolved")
            = Raise (InvalidRequestError msg)).
Proof.
  split; [reflexivity|].
  exact (resolved_grants_twenty Examples.corner_db 2 7 Examples.moderator
           Examples.corner_issue Examples.reporter 0 eq_refl eq_refl eq_refl
           eq_refl eq_refl).
Defined.

(** ** More on binary64 arithmetic and comparisons *)

Module FloatAlgebra.

Lemma SFmul_comm (prec emax : Z) (x y : spec_float) :
  SFmul prec emax x y = SFmul prec emax y x.
Proof.
  destruct x as [sx|sx| |sx mx ex], y as [sy|sy| |sy my ey]; simpl;
    try reflexivity; try (by rewrite xorb_comm).
  by rewrite xorb_comm, Pos.mul_comm, Z.add_comm.
Qed.

Lemma mul_comm (x y : float) : (x * y)%float = (y * x)%float.
Proof.
  apply Prim2SF_inj. rewrite !mul_spec. apply SFmul_comm.
Qed.

(** Two numbers compare equal when they are the same number or both are a
    zero (of either sign). *)
Lemma SFcompare_Eq (x y : spec_float) :
  SFcompare x y = Some Eq →
  (∃ sx sy, x = S754_zero sx ∧ y = S754_zero sy) ∨ x = y.
Proof.
  destruct x as [sx|sx| |sx mx ex], y as [sy|sy| |sy my ey]; simpl;
    intros H; try discriminate; eauto;
    try (destruct sx; discriminate); try (destruct sy; discriminate).
  - destruct sx, sy; try discriminate; auto.
  - right. destruct sx, sy; try discriminate;
      destruct (ex ?= ey)%Z eqn:He; try discriminate;
      apply Z.compare_eq in He as ->;
      injection H as H;
      [destruct (Pos.compare_cont Eq mx my) eqn:Hm; try discriminate|];
      by (apply Pcompare_Eq_eq in Hm as -> || apply Pcompare_Eq_eq in H as ->).
Qed.

Lemma SFcompare_zero_l (sx sx' : bool) (y : spec_float) :
  SFcompare (S754_zero sx) y = SFcompare (S754_zero sx') y.
Proof. by destruct y. Qed.

Lemma SFcompare_zero_r (x : spec_float) (sy sy' : bool) :
  SFcompare x (S754_zero sy) = SFcompare x (S754_zero sy').
Proof. by destruct x. Qed.

(** Comparisons do not tell apart two numbers that compare equal. *)
Lemma SFcompare_Eq_l (x x' y : spec_float) :
  SFcompare x x' = Some Eq → SFcompare x y = SFcompare x' y.
Proof.
  intros H. apply SFcompare_Eq in H as [(sx & sx' & -> & ->)| ->]; [|done].
  apply SFcompare_zero_l.
Qed.

Lemma SFcompare_Eq_r (x y y' : spec_float) :
  SFcompare y y' = Some Eq → SFcompare x y = SFcompare x y'.
Proof.
  intros H. apply SFcompare_Eq in H as [(sy & sy' & -> & ->)| ->]; [|done].
  apply SFcompare_zero_r.
Qed.

Lemma eqb_true (x y : float) :
  (x =? y)%float = true ↔ SFcompare (Prim2SF x) (Prim2SF y) = Some Eq.
Proof.
  rewrite FloatAxioms.eqb_spec. unfold SFeqb.
  destruct (SFcompare _ _) as [[]|]; split; congruence.
Qed.

(** Numbers equal to the same number are not strictly ordered. *)
Lemma eqb_not_ltb (a b k : float) :
  (a =? k)%float = true → (b =? k)%float = true → (a <? b)%float = false.
Proof.
  rewrite !eqb_true, FloatAxioms.ltb_spec. unfold SFltb. intros Ha Hb.
  rewrite (SFcompare_Eq_l _ _ _ Ha).
  rewrite (FloatOrder.SFcompare_swap (Prim2SF k) (Prim2SF b)) in Hb.
  destruct (SFcompare (Prim2SF k) (Prim2SF b)) as [[]|]; simpl in *; congruence.
Qed.

Lemma ltb_eqb_r (t s k : float) :
  (s =? k)%float = true → (t <? s)%float = (t <? k)%float.
Proof.
  rewrite eqb_true, !FloatAxioms.ltb_spec. unfold SFltb. intros H.
  by rewrite (SFcompare_Eq_r _ _ _ H).
Qed.

End FloatAlgebra.

(** ** More on the similarity ranker *)

Section RankerMore.
Local Open Scope float_scope.
Implicit Types (q : list float) (rows : list (Z * Issue)).

Lemma sum_products_from_comm (v1 v2 : list float) (acc : float) :
  foldl (λ acc p, acc + p.1 * p.2) acc (zip v1 v2)
  = foldl (λ acc p, acc + p.1 * p.2) acc (zip v2 v1).
Proof.
  revert v2 acc. induction v1 as [|x v1 IH]; intros [|y v2] acc; simpl; try done.
  by rewrite (FloatAlgebra.mul_comm x y), IH.
Qed.

(** X1. Cosine similarity is symmetric, to the last bit: swapping the two
    vectors gives the same binary64 value, or the same [ValueError] when
    their lengths differ. *)
Theorem cosine_similarity_symmetric (v1 v2 : list float) :
  cosine_similarity v1 v2 = cosine_similarity v2 v1.
Proof.
  unfold cosine_similarity, np_dot, sum_products.
  destruct (decide (length v1 = length v2)) as [Hlen|Hlen].
  - rewrite decide_True by done. simpl.
    by rewrite sum_products_from_comm,
               (FloatAlgebra.mul_comm (np_norm v1) (np_norm v2)).
  - by rewrite decide_False by congruence.
Qed.

Lemma similarities_from_dimensions q rows acc sims :
  similarities_from q acc rows = Ok sims →
  ∀ row e, row ∈ rows → truthy_embedding row.2 = Some e → length e = length q.
Proof.
  revert acc. induction rows as [|[id i] rows IH]; intros acc Hsims row e Hrow He.
  - by apply elem_of_nil in Hrow.
  - simpl in Hsims. apply elem_of_cons in Hrow as [->|Hrow]; simpl in *.
    + rewrite He in Hsims. unfold cosine_similarity, np_dot in Hsims.
      destruct (decide (length q = length e)); [done|]. done.
    + destruct (truthy_embedding i) as [e'|]; [|by eapply IH].
      destruct (cosine_similarity q e'); simpl in Hsims; [by eapply IH|done].
Qed.

Lemma similarities_from_error q rows acc err :
  similarities_from q acc rows = Raise err →
  err = ValueError "shapes not aligned".
Proof.
  revert acc. induction rows as [|[id i] rows IH]; intros acc; simpl; [done|].
  destruct (truthy_embedding i) as [e|]; [|apply IH].
  unfold cosine_similarity, np_dot.
  destruct (decide (length q = length e)); simpl; [apply IH|congruence].
Qed.

(** X2. The ranker returns a list exactly when every candidate embedding
    has as many components as the query embedding; otherwise, and only
    then, it raises numpy's [ValueError], which [search] does not catch. *)
Theorem rank_defined_iff_dimensions_agree q rows :
  ((∃ res, rank q rows = Ok res) ↔
     ∀ row e, row ∈ rows → truthy_embedding row.2 = Some e →
              length e = length q)
  ∧ (∀ err, rank q rows = Raise err → err = ValueError "shapes not aligned")
  ∧ (∀ svc d (text : string) err x v,
       generate_embedding svc (py_strip text) "RETRIEVAL_QUERY" = Some (x :: v) →
       str_truthy (py_strip text) = true →
       rank (x :: v) (select_issues (λ _, true) d) = Raise err →
       search svc d text "" = Raise err).
Proof.
  split; [split|split].
  - intros [res Hres]. unfold rank in Hres.
    destruct (similarities q rows) as [sims|] eqn:Hs; [|done].
    by eapply similarities_from_dimensions.
  - apply rank_total.
  - intros err. unfold rank.
    destruct (similarities q rows) as [sims|e] eqn:Hs; simpl; [done|].
    intros [= <-]. by eapply similarities_from_error.
  - intros svc d text err x v Hemb Hq Hrank. unfold search.
    rewrite Hq. simpl. rewrite Hemb.
    destruct (select_issues (λ _, true) d) as [|row rows'] eqn:Hrows.
    + by vm_compute in Hrank.
    + simpl. by rewrite Hrank.
Qed.

Lemma omap_scored_keys q rows :
  (omap (scored q) rows).*1 `sublist_of` rows.*1.
Proof.
  induction rows as [|[id i] rows IH]; simpl; [done|].
  destruct (scored q (id, i)) as [[id' s]|] eqn:Hsc; simpl.
  - apply scored_Some in Hsc as [Hid _]. simpl in Hid. subst id'.
    by apply sublist_skip.
  - by apply sublist_cons.
Qed.

(** X3. The ranked list names no issue twice and is no longer than the
    list of candidates. *)
Theorem rank_lists_each_issue_once q rows res :
  NoDup rows.*1 → rank q rows = Ok res →
  NoDup res.*1 ∧ length res ≤ length rows.
Proof.
  intros Hnd Hrank.
  apply rank_Ok in Hrank as (entries & Hall & Hperm & _); [|done].
  assert (res.*1 = entries.*1) as Hkeys.
  { clear Hperm. induction Hall as [|row entry res entries [Hid _] _ IH];
      simpl; [done|]. f_equal; [exact Hid|exact IH]. }
  assert ((relevant_ids (omap (scored q) rows)).*1 `sublist_of` rows.*1) as Hsub.
  { etrans; [|apply omap_scored_keys]. apply fmap_sublist, sublist_filter. }
  rewrite Hkeys, Hperm. split; [by eapply sublist_NoDup|].
  rewrite <- (length_fmap fst res), Hkeys, Hperm, <- (length_fmap fst rows).
  by apply sublist_length.
Qed.

End RankerMore.

Section Stability.
Context {A : Type} (key : A → float).
Local Open Scope float_scope.

Lemma insert_by_filter (k : float) (x : A) (l : list A) :
  filter (λ y, (key y =? k) = true) (insert_by key x l)
  = filter (λ y, (key y =? k) = true) (x :: l).
Proof.
  induction l as [|y l IH]; simpl; [done|].
  destruct (key y <? key x) eqn:Hlt; [|done].
  rewrite filter_cons, IH, !filter_cons.
  destruct (decide ((key y =? k) = true)) as [Hy|Hy];
    destruct (decide ((key x =? k) = true)) as [Hx|Hx]; try done.
  by rewrite (FloatAlgebra.eqb_not_ltb _ _ _ Hy Hx) in Hlt.
Qed.

Lemma sort_by_filter (k : float) (l : list A) :
  filter (λ y, (key y =? k) = true) (sort_by key l)
  = filter (λ y, (key y =? k) = true) l.
Proof.
  induction l as [|x l IH]; simpl; [done|].
  by rewrite insert_by_filter, !filter_cons, IH.
Qed.

(** The sort is stable: the elements of one score keep their order. *)
Lemma sorted_reverse_filter (k : float) (l : list A) :
  filter (λ y, (key y =? k) = true) (sorted_reverse key l)
  = filter (λ y, (key y =? k) = true) l.
Proof.
  unfold sorted_reverse.
  by rewrite filter_reverse, sort_by_filter, filter_reverse, reverse_involutive.
Qed.
End Stability.

Section Ties.
Local Open Scope float_scope.
Implicit Types (q : list float) (rows : list (Z * Issue)).

Lemma filter_omap {A B} (f : A → option B) (P : B → Prop) (Q : A → Prop)
    `{∀ y, Decision (P y)} `{∀ x, Decision (Q x)} (l : list A) :
  (∀ x y, x ∈ l → f x = Some y → (P y ↔ Q x)) →
  filter P (omap f l) = omap f (filter Q l).
Proof.
  induction l as [|x l IH]; intros Hpq; [done|].
  assert (filter P (omap f l) = omap f (filter Q l)) as IH'
    by (apply IH; intros x' y Hin; apply Hpq; by right).
  rewrite filter_cons. cbn [omap list_omap].
  destruct (f x) as [y|] eqn:Hfx.
  - rewrite filter_cons.
    destruct (decide (P y)) as [Hp|Hp], (decide (Q x)) as [Hq|Hq].
    + cbn [omap list_omap]. by rewrite Hfx, IH'.
    + destruct Hq. by apply (Hpq x y); [left|..].
    + destruct Hp. by apply (Hpq x y); [left|..].
    + done.
  - destruct (decide (Q x)); [|done]. cbn [omap list_omap]. by rewrite Hfx.
Qed.

Lemma omap_fmap_fst {B} (g : Z → option B) (l : list (Z * float)) :
  omap g l.*1 = omap (λ entry, g entry.1) l.
Proof.
  induction l as [|entry l IH]; [done|]. cbn. by rewrite IH.
Qed.

(** Above the threshold, the entries of one score are not thinned out. *)
Lemma relevant_ids_filter (k : float) (sims : dict float) :
  (threshold <? k) = true →
  filter (λ entry : Z * float, (entry.2 =? k) = true) (relevant_ids sims)
  = filter (λ entry : Z * float, (entry.2 =? k) = true) sims.
Proof.
  intros Hk. unfold relevant_ids, dict in *. rewrite list_filter_filter.
  apply list_filter_iff. intros entry. split; [tauto|].
  intros Heq. split; [done|]. by rewrite (FloatAlgebra.ltb_eqb_r _ _ _ Heq).
Qed.

(** Scoring the candidates of one score and looking their ids up again
    gives these candidates back. *)
Lemma scored_rows_found q rows (l : list (Z * Issue)) (k : float) :
  NoDup rows.*1 → (∀ row, row ∈ l → row ∈ rows ∧ has_score q k row = true) →
  omap (λ entry : Z * float, pair entry.1 <$> dict_get entry.1 rows)
       (omap (scored q) l) = l.
Proof.
  intros Hnd. induction l as [|[id i] l IH]; intros Hl; [done|].
  destruct (Hl (id, i)) as [Hin Hs]; [left|].
  unfold has_score in Hs. cbn [omap list_omap].
  destruct (scored q (id, i)) as [entry|] eqn:Hsc; [|done].
  apply scored_Some in Hsc as [Hid _]. cbn in Hid.
  cbn [omap list_omap]. rewrite <- Hid.
  rewrite (dict_get_elem_of _ _ _ Hnd Hin). cbn.
  f_equal. apply IH. intros row Hrow. apply Hl. by right.
Qed.

(** X4. Ties keep the order of the query. For candidates with distinct
    ids and every similarity [k] above the threshold, the issues that the
    ranker of [search] (either version) returns with similarity [k] are
    the candidates of similarity [k], all of them and in the order in
    which the candidates were given: among issues of equal similarity the
    ranking does not reorder. *)
Theorem rank_keeps_ties_in_query_order q rows res (k : float) :
  NoDup rows.*1 → rank q rows = Ok res ∨ V1.rank q rows = Ok res →
  (threshold <? k) = true →
  filter (λ row, has_score q k row = true) res
  = filter (λ row, has_score q k row = true) rows.
Proof.
  intros Hnd Hrank Hk. apply either_rank in Hrank; [|done].
  unfold rank in Hrank.
  destruct (similarities q rows) as [sims|err] eqn:Hsims; [|done].
  cbn in Hrank. injection Hrank as <-.
  apply similarities_Ok in Hsims as ->; [|done].
  rewrite dict_of_items_NoDup by done. unfold sorted_ids.
  rewrite omap_fmap_fst.
  rewrite (filter_omap _ _ (λ entry : Z * float, (entry.2 =? k) = true)).
  - rewrite sorted_reverse_filter, relevant_ids_filter by done.
    rewrite (filter_omap (scored q) _ (λ row, has_score q k row = true)).
    + apply (scored_rows_found q rows _ k); [done|].
      intros row [Hs Hin]%list_elem_of_filter. done.
    + intros row entry _ Hsc. unfold has_score. by rewrite Hsc.
  - intros entry row Hin Hrow.
    rewrite sorted_reverse_perm in Hin. unfold relevant_ids in Hin.
    apply list_elem_of_filter in Hin as [_ Hin].
    apply list_elem_of_omap in Hin as ([id i] & Hin & Hsc).
    pose proof Hsc as Hsc'. apply scored_Some in Hsc' as [Hid _]. cbn in Hid.
    rewrite <- Hid, (dict_get_elem_of _ _ _ Hnd Hin) in Hrow.
    injection Hrow as <-. unfold has_score. by rewrite Hsc.
Qed.
End Ties.

Section SearchMore.
Local Open Scope float_scope.

(** X5. What a search shows is sound: every row is a stored issue; when a
    location was given it was geocoded and the issue lies in the box of
    radius 0.05 around it; when a text was given the issue has an embedding
    whose cosine similarity to the text's embedding is strictly above 0.6.
    With a location and no text, every stored issue of the box is
    shown. *)
Theorem search_results_sound svc d (text loc : string) res flashes :
  search svc d text loc = Ok (SearchResults res flashes) →
  (∀ row, row ∈ res →
     issues d !! row.1 = Some row.2
     ∧ (str_truthy (py_strip loc) = true →
        ∃ lat lng,
          get_coords_for_location svc (py_strip loc) = Some (lat, lng)
          ∧ in_box lat lng search_radius row.2 = true)
     ∧ (str_truthy (py_strip text) = true →
        ∃ qv e s,
          generate_embedding svc (py_strip text) "RETRIEVAL_QUERY" = Some qv
          ∧ truthy_embedding row.2 = Some e
          ∧ cosine_similarity qv e = Ok s
          ∧ (threshold <? s) = true))
  ∧ (str_truthy (py_strip text) = false →
     ∀ lat lng id i,
       get_coords_for_location svc (py_strip loc) = Some (lat, lng) →
       issues d !! id = Some i → in_box lat lng search_radius i = true →
       (id, i) ∈ res).
Proof.
  intros Hsearch.
  assert (∀ P, ∀ row, row ∈ res →
            (if str_truthy (py_strip text) && list_truthy (select_issues P d)
             then match generate_embedding svc (py_strip text) "RETRIEVAL_QUERY" with
                  | Some (x :: v) =>
                      ranked ← rank (x :: v) (select_issues P d);
                      Ok (SearchResults ranked [])
                  | _ => Ok (SearchResults [] [])
                  end
             else Ok (SearchResults (select_issues P d) []))
            = Ok (SearchResults res flashes) →
            row ∈ select_issues P d) as Hsub.
  { intros P row Hrow H.
    destruct (str_truthy (py_strip text) && list_truthy (select_issues P d));
      [|by injection H as <- _].
    destruct (generate_embedding svc _ _) as [[|x v]|];
      try (injection H as <- _; by apply elem_of_nil in Hrow).
    destruct (rank (x :: v) (select_issues P d)) as [ranked|e] eqn:Hrank;
      simpl in H; [|done].
    injection H as <- _.
    by destruct (ranked_rows_scored _ _ _ (NoDup_select_issues P d) Hrank row Hrow). }
  split.
  - intros [id i] Hrow. simpl.
    split; [|split].
    + unfold search in Hsearch.
      destruct (negb (str_truthy (py_strip text)) && negb (str_truthy (py_strip loc)));
        [done|].
      destruct (str_truthy (py_strip loc)).
      * destruct (get_coords_for_location svc _) as [[lat lng]|];
          [|injection Hsearch as <- _; by apply elem_of_nil in Hrow].
        apply (Hsub (in_box lat lng search_radius)) in Hrow; [|done].
        by apply elem_of_select_issues in Hrow as [? _].
      * apply (Hsub (λ _, true)) in Hrow; [|done].
        by apply elem_of_select_issues in Hrow as [? _].
    + intros Hloc. unfold search in Hsearch. rewrite Hloc in Hsearch.
      rewrite andb_false_r in Hsearch.
      destruct (get_coords_for_location svc _) as [[lat lng]|];
        [|injection Hsearch as <- _; by apply elem_of_nil in Hrow].
      exists lat, lng. split; [done|].
      apply (Hsub (in_box lat lng search_radius)) in Hrow; [|done].
      by apply elem_of_select_issues in Hrow as [_ ?].
    + intros Hq.
      by apply (search_results_above_threshold _ _ _ _ _ _ Hsearch Hq (id, i)).
  - intros Hq lat lng id i Hcoords Hi Hbox. unfold search in Hsearch.
    rewrite Hq, Hcoords in Hsearch. simpl in Hsearch.
    destruct (str_truthy (py_strip loc)); [|done].
    injection Hsearch as <- _. by apply elem_of_select_issues.
Qed.

(** X6. The two versions of [search] agree once the arguments are
    stripped: Version 2 on the raw arguments answers as Version 1 does on
    the stripped ones. *)
Theorem search_versions_agree svc d (q loc : string) :
  search svc d q loc = Version1.search svc d (py_strip q) (py_strip loc).
Proof.
  unfold search, Version1.search.
  destruct (negb (str_truthy (py_strip q)) && negb (str_truthy (py_strip loc)));
    [done|].
  assert (∀ P,
            (if str_truthy (py_strip q) && list_truthy (select_issues P d)
             then match generate_embedding svc (py_strip q) "RETRIEVAL_QUERY" with
                  | Some (x :: v) =>
                      ranked ← rank (x :: v) (select_issues P d);
                      Ok (SearchResults ranked [])
                  | _ => Ok (SearchResults [] [])
                  end
             else Ok (SearchResults (select_issues P d) []))
            = (if str_truthy (py_strip q) && list_truthy (select_issues P d)
               then match generate_embedding svc (py_strip q) "RETRIEVAL_QUERY" with
                    | Some (x :: v) =>
                        ranked ← V1.rank (x :: v) (select_issues P d);
                        Ok (SearchResults ranked [])
                    | _ => Ok (SearchResults [] [])
                    end
               else Ok (SearchResults (select_issues P d) []))) as Hsame.
  { intros P. destruct (_ && _); [|done].
    destruct (generate_embedding svc _ _) as [[|x v]|]; try done.
    by rewrite (rank_v1_agrees (x :: v) _ (NoDup_select_issues P d)). }
  destruct (str_truthy (py_strip loc)).
  - destruct (get_coords_for_location svc _) as [[lat lng]|]; [|done].
    apply (Hsame (in_box lat lng search_radius)).
  - apply (Hsame (λ _, true)).
Qed.

End SearchMore.

Lemma rank_defined_iff_dimensions_agree_witness :
  search Examples.services Samples.mismatch_db "pothole" ""
  = Raise (ValueError "shapes not aligned").
Proof.
  apply (proj2 (proj2 (rank_defined_iff_dimensions_agree
                         Examples.query_vector [])) Examples.services
           Samples.mismatch_db "pothole" _ 1%float [0%float]);
    reflexivity.
Defined.

Lemma rank_lists_each_issue_once_witness :
  NoDup Examples.candidates.*1
  ∧ rank Examples.query_vector Examples.candidates = Ok Examples.ranked
  ∧ NoDup Examples.ranked.*1
  ∧ length Examples.ranked ≤ length Examples.candidates.
Proof.
  split; [exact candidates_NoDup|]. split; [reflexivity|].
  exact (rank_lists_each_issue_once Examples.query_vector Examples.candidates
           Examples.ranked candidates_NoDup eq_refl).
Defined.

Lemma tied_NoDup : NoDup Samples.tied.*1.
Proof. apply (bool_decide_unpack _). reflexivity. Defined.

Lemma rank_keeps_ties_in_query_order_witness :
  rank Examples.query_vector Samples.tied
  = Ok [(3%Z, Examples.issue_a); (2%Z, Examples.issue_a); (1%Z, Examples.issue_d)]
  ∧ (threshold <? 1)%float = true
  ∧ filter (λ row, has_score Examples.query_vector 1 row = true)
           [(3%Z, Examples.issue_a); (2%Z, Examples.issue_a); (1%Z, Examples.issue_d)]
    = filter (λ row, has_score Examples.query_vector 1 row = true) Samples.tied.
Proof.
  split; [reflexivity|]. split; [reflexivity|].
  exact (rank_keeps_ties_in_query_order Examples.query_vector Samples.tied _ 1
           tied_NoDup (or_introl eq_refl) eq_refl).
Defined.

Lemma search_results_sound_witness :
  search Samples.located_services Examples.corner_db "pothole" "Main Street"
  = Ok (SearchResults [(7%Z, Examples.corner_issue)] [])
  ∧ issues Examples.corner_db !! 7%Z = Some Examples.corner_issue
  ∧ (∃ lat lng,
       get_coords_for_location Samples.located_services "Main Street"
       = Some (lat, lng)
       ∧ in_box lat lng search_radius Examples.corner_issue = true).
Proof.
  split; [reflexivity|].
  destruct (proj1 (search_results_sound Samples.located_services Examples.corner_db
                     "pothole" "Main Street" [(7%Z, Examples.corner_issue)] []
                     eq_refl) (7%Z, Examples.corner_issue))
    as (Hstored & Hbox & _); [left|].
  split; [exact Hstored|]. exact (Hbox eq_refl).
Defined.

(** ** More on the duplicate check *)

Section DuplicateCheck.
Implicit Types (svc : Services) (t : list event).

Lemma find_duplicate_issue_failure svc description existing t :
  existing ≠ [] →
  (∃ e, gemini_generate svc (duplicate_prompt svc description existing) = Raise e)
  ∨ (∃ text e,
       gemini_generate svc (duplicate_prompt svc description existing) = Ok text
       ∧ json_loads svc (clean_response text) = Raise e) →
  ∃ msg,
    find_duplicate_issue svc description existing t
    = (Ok not_duplicate,
       t ++ [CallClassifier (duplicate_prompt svc description existing);
             LogError msg]).
Proof.
  destruct existing as [|x existing]; [done|]. intros _ Hfail.
  unfold find_duplicate_issue, try_except, call_classifier. simpl.
  unfold mbind, eff_bind, emit, lift, mret, eff_ret. simpl.
  destruct Hfail as [[e ->]|(text & e & -> & ->)];
    rewrite <- app_assoc; simpl; eauto.
Qed.

Lemma find_duplicate_issue_answer svc description existing t text answer :
  existing ≠ [] →
  gemini_generate svc (duplicate_prompt svc description existing) = Ok text →
  json_loads svc (clean_response text) = Ok answer →
  find_duplicate_issue svc description existing t
  = (Ok answer, t ++ [CallClassifier (duplicate_prompt svc description existing)]).
Proof.
  destruct existing as [|x existing]; [done|]. intros _ Hgen Hload.
  unfold find_duplicate_issue, try_except, call_classifier. simpl.
  unfold mbind, eff_bind, emit, lift, mret, eff_ret. simpl.
  by rewrite Hgen, Hload.
Qed.

Lemma candidates_summary_nonempty d lat lng :
  geo_candidates d lat lng duplicate_radius ≠ [] →
  issue_summary <$> geo_candidates d lat lng duplicate_radius ≠ [].
Proof. by destruct (geo_candidates _ _ _ _). Qed.

Lemma check_duplicates_calls svc d lat lng description :
  geo_candidates d lat lng duplicate_radius ≠ [] →
  check_duplicates svc d (Some (lat, lng)) description
  = (res ← find_duplicate_issue svc description
             (issue_summary <$> geo_candidates d lat lng duplicate_radius);
     is_dup ← lift (json_get res "is_duplicate");
     if json_truthy is_dup then
       dup_id ← lift (json_get res "duplicate_id");
       found ← lift (get_issue_by_json svc d dup_id);
       match found, res with
       | Some duplicate_issue, JDict fields =>
           mret (JsonResponse 200
                   (JDict (fields_set "duplicate_title"
                             (JStr (category duplicate_issue)) fields)))
       | _, _ => mret (JsonResponse 200 res)
       end
     else mret (JsonResponse 200 res)).
Proof.
  intros Hne. unfold check_duplicates.
  by destruct (geo_candidates d lat lng duplicate_radius).
Qed.

(** X7. A duplicate check does not fail when the classifier does: with
    candidates nearby, if the call raises or the answer is no JSON, the
    handler still answers 200 with [{'is_duplicate': False}], after one
    call to the classifier and one line in the error log. *)
Theorem check_duplicates_survives_outage svc d lat lng description t :
  geo_candidates d lat lng duplicate_radius ≠ [] →
  (∃ e, gemini_generate svc
          (duplicate_prompt svc description
             (issue_summary <$> geo_candidates d lat lng duplicate_radius))
        = Raise e)
  ∨ (∃ text e,
       gemini_generate svc
         (duplicate_prompt svc description
            (issue_summary <$> geo_candidates d lat lng duplicate_radius))
       = Ok text
       ∧ json_loads svc (clean_response text) = Raise e) →
  ∃ msg,
    check_duplicates svc d (Some (lat, lng)) description t
    = (Ok (JsonResponse 200 not_duplicate),
       t ++ [CallClassifier
               (duplicate_prompt svc description
                  (issue_summary <$> geo_candidates d lat lng duplicate_radius));
             LogError msg]).
Proof.
  intros Hne Hfail. rewrite check_duplicates_calls by done.
  destruct (find_duplicate_issue_failure svc description _ t
              (candidates_summary_nonempty d lat lng Hne) Hfail) as [msg Hfind].
  exists msg. unfold mbind, eff_bind. by rewrite Hfind.
Qed.

(** X8. The fail-soft rule stops at the parser: when the classifier's
    answer is valid JSON but not an object (a list, a number, a string,
    ...), the handler raises [AttributeError] on [result.get], after the
    call and with nothing logged. *)
Theorem check_duplicates_raises_on_non_object
    svc d lat lng description t text answer :
  geo_candidates d lat lng duplicate_radius ≠ [] →
  gemini_generate svc
    (duplicate_prompt svc description
       (issue_summary <$> geo_candidates d lat lng duplicate_radius))
  = Ok text →
  json_loads svc (clean_response text) = Ok answer →
  (∀ fields, answer ≠ JDict fields) →
  check_duplicates svc d (Some (lat, lng)) description t
  = (Raise (AttributeError "object has no attribute 'get'"),
     t ++ [CallClassifier
             (duplicate_prompt svc description
                (issue_summary <$> geo_candidates d lat lng duplicate_radius))]).
Proof.
  intros Hne Hgen Hload Hobj. rewrite check_duplicates_calls by done.
  unfold mbind, eff_bind.
  rewrite (find_duplicate_issue_answer svc description _ t text answer
             (candidates_summary_nonempty d lat lng Hne) Hgen Hload).
  destruct answer; try done. by destruct (Hobj d0).
Qed.

Lemma fields_get_set_eq key v fields :
  fields_get key (fields_set key v fields) = v.
Proof.
  induction fields as [|[k v'] fields IH]; simpl.
  - by rewrite decide_True.
  - destruct (decide (k = key)) as [->|Hne]; simpl.
    + by rewrite decide_True.
    + by rewrite decide_False.
Qed.

Lemma fields_get_set_ne key key' v fields :
  key ≠ key' → fields_get key' (fields_set key v fields) = fields_get key' fields.
Proof.
  intros Hne. induction fields as [|[k v'] fields IH]; simpl.
  - by rewrite decide_False.
  - destruct (decide (k = key)) as [->|Hk]; simpl.
    + by rewrite !decide_False.
    + destruct (decide (k = key')); [done|exact IH].
Qed.

Lemma get_issue_by_key svc d key :
  fits_int64 key = true → get_issue_by_json svc d (JInt key) = Ok (issues d !! key).
Proof. unfold get_issue_by_json. by intros ->. Qed.

(** X9. When the classifier's answer is an object, the handler passes it
    on. With a falsy [is_duplicate] it answers with the object as it is
    and looks nothing up. With a truthy [is_duplicate] and a
    [duplicate_id] that is an integer of the key column's range, it
    answers with the object as it is when no such issue is stored, and
    with the stored issue's category added under [duplicate_title] (every
    other key as answered) when there is one. When the lookup of the
    [duplicate_id] raises, the handler raises. In each case the classifier
    was called once and nothing was logged. *)
Theorem check_duplicates_passes_answer_on
    svc d lat lng description t text fields :
  geo_candidates d lat lng duplicate_radius ≠ [] →
  gemini_generate svc
    (duplicate_prompt svc description
       (issue_summary <$> geo_candidates d lat lng duplicate_radius))
  = Ok text →
  json_loads svc (clean_response text) = Ok (JDict fields) →
  let t' :=
    t ++ [CallClassifier
            (duplicate_prompt svc description
               (issue_summary <$> geo_candidates d lat lng duplicate_radius))] in
  (json_truthy (fields_get "is_duplicate" fields) = false →
   check_duplicates svc d (Some (lat, lng)) description t
   = (Ok (JsonResponse 200 (JDict fields)), t'))
  ∧ (∀ key,
       json_truthy (fields_get "is_duplicate" fields) = true →
       fields_get "duplicate_id" fields = JInt key → fits_int64 key = true →
       ∃ body,
         check_duplicates svc d (Some (lat, lng)) description t
         = (Ok (JsonResponse 200 (JDict body)), t')
         ∧ match issues d !! key with
           | Some duplicate_issue =>
               fields_get "duplicate_title" body = JStr (category duplicate_issue)
               ∧ ∀ k, k ≠ "duplicate_title" →
                      fields_get k body = fields_get k fields
           | None => body = fields
           end)
  ∧ (∀ e,
       json_truthy (fields_get "is_duplicate" fields) = true →
       get_issue_by_json svc d (fields_get "duplicate_id" fields) = Raise e →
       check_duplicates svc d (Some (lat, lng)) description t = (Raise e, t')).
Proof.
  intros Hne Hgen Hload t'. rewrite check_duplicates_calls by done.
  unfold mbind, eff_bind.
  rewrite (find_duplicate_issue_answer svc description _ t text (JDict fields)
             (candidates_summary_nonempty d lat lng Hne) Hgen Hload).
  unfold lift, mret, eff_ret. cbn [json_get]. split; [|split].
  - by intros ->.
  - intros key -> -> Hfits. rewrite (get_issue_by_key svc d key Hfits).
    destruct (issues d !! key) as [duplicate_issue|].
    + eexists. split; [reflexivity|]. split.
      * apply fields_get_set_eq.
      * intros k Hk. by apply fields_get_set_ne.
    + by eexists.
  - by intros e -> ->.
Qed.

End DuplicateCheck.

Lemma check_duplicates_survives_outage_witness :
  geo_candidates Examples.corner_db Samples.corner_lat Samples.corner_lng
    duplicate_radius ≠ []
  ∧ ∃ msg call,
      check_duplicates Examples.services Examples.corner_db
        (Some (Samples.corner_lat, Samples.corner_lng)) "a hole" []
      = (Ok (JsonResponse 200 not_duplicate), [CallClassifier call; LogError msg]).
Proof.
  assert (geo_candidates Examples.corner_db Samples.corner_lat Samples.corner_lng
            duplicate_radius ≠ []) as Hne by discriminate.
  split; [exact Hne|].
  destruct (check_duplicates_survives_outage Examples.services Examples.corner_db
              Samples.corner_lat Samples.corner_lng "a hole" [] Hne
              (or_introl (ex_intro _ _ eq_refl))) as [msg Hmsg].
  exists msg. eexists. exact Hmsg.
Defined.

Lemma check_duplicates_raises_on_non_object_witness :
  ∃ call,
    check_duplicates Samples.listing_services Examples.corner_db
      (Some (Samples.corner_lat, Samples.corner_lng)) "a hole" []
    = (Raise (AttributeError "object has no attribute 'get'"),
       [CallClassifier call]).
Proof.
  eexists.
  apply (check_duplicates_raises_on_non_object Samples.listing_services
           Examples.corner_db Samples.corner_lat Samples.corner_lng "a hole" []
           "[7]" (JList [JInt 7]));
    [discriminate|reflexivity|reflexivity|discriminate].
Defined.

Lemma check_duplicates_passes_answer_on_witness :
  json_loads Samples.answering_services (clean_response Samples.duplicate_text)
  = Ok (JDict Samples.duplicate_answer)
  ∧ ∃ body call,
      check_duplicates Samples.answering_services Examples.corner_db
        (Some (Samples.corner_lat, Samples.corner_lng)) "a hole" []
      = (Ok (JsonResponse 200 (JDict body)), [CallClassifier call])
      ∧ fields_get "duplicate_title" body = JStr "Pothole"
      ∧ fields_get "duplicate_id" body = JInt 7.
Proof.
  split; [reflexivity|].
  destruct (check_duplicates_passes_answer_on Samples.answering_services
              Examples.corner_db Samples.corner_lat Samples.corner_lng "a hole" []
              Samples.duplicate_text Samples.duplicate_answer)
    as (_ & Hfound & _); [discriminate|reflexivity|reflexivity|].
  destruct (Hfound 7%Z eq_refl eq_refl eq_refl) as (body & Hrun & Htitle & Hrest).
  exists body. eexists. split; [exact Hrun|].
  split; [exact Htitle|]. by rewrite Hrest.
Defined.

(** ** Unwrapping a fenced answer *)

Section CleanResponse.

Lemma prefix_backtick_false (old' s : string) (c : ascii) :
  c ≠ "`"%char → String.prefix (String "`" old') (String c s) = false.
Proof.
  intros Hc. cbn [String.prefix].
  destruct (Ascii.ascii_dec "`" c); [congruence|done].
Qed.

(** Where there is no backtick nothing is replaced. *)
Lemma replace_from_no_backtick (old' new s : string) :
  has_backtick s = false → replace_from (String "`" old') new 0 s = s.
Proof.
  induction s as [|c s IH]; [done|].
  cbn [has_backtick]. destruct (decide (c = "`"%char)); [done|]. intros Hs.
  cbn [replace_from]. rewrite prefix_backtick_false by done. by rewrite IH.
Qed.

Lemma lstrip_no_backtick (s : string) :
  has_backtick s = false → has_backtick (lstrip s) = false.
Proof.
  induction s as [|c s IH]; [done|]. cbn [has_backtick lstrip].
  destruct (decide (c = "`"%char)); [done|]. intros Hs.
  destruct (is_space c); [by apply IH|].
  cbn [has_backtick]. by rewrite decide_False.
Qed.

Lemma rstrip_no_backtick (s : string) :
  has_backtick s = false → has_backtick (rstrip s) = false.
Proof.
  induction s as [|c s IH]; [done|]. cbn [has_backtick rstrip].
  destruct (decide (c = "`"%char)); [done|]. intros Hs. specialize (IH Hs).
  destruct (rstrip s).
  - destruct (is_space c); [done|]. cbn [has_backtick]. by rewrite decide_False.
  - cbn [has_backtick] in *. by rewrite decide_False.
Qed.

Lemma rstrip_fence (s : string) : rstrip (s +:+ "```") = s +:+ "```".
Proof.
  induction s as [|c s IH]; [done|].
  simpl. rewrite IH. by destruct s.
Qed.

Lemma prefix_append (s t : string) : String.prefix s (s +:+ t) = true.
Proof.
  induction s as [|c s IH]; [by destruct t|].
  change (String c s +:+ t) with (String c (s +:+ t)). cbn [String.prefix].
  by destruct (Ascii.ascii_dec c c).
Qed.

(** The opening fence at the start of a text is dropped. *)
Lemma replace_opening (rest : string) :
  replace_from "```json" "" 0 ("```json" +:+ rest)
  = replace_from "```json" "" 0 rest.
Proof.
  pose proof (prefix_append "```json" rest) as Hpre.
  change ("```json" +:+ rest)
    with (String "`" (String "`" (String "`" (String "j" (String "s"
           (String "o" (String "n" rest))))))) in *.
  cbn [replace_from]. by rewrite Hpre.
Qed.

Lemma replace_opening_keeps_closing (body : string) :
  has_backtick body = false →
  replace_from "```json" "" 0 (body +:+ "```") = body +:+ "```".
Proof.
  induction body as [|c body IH]; [done|].
  cbn [has_backtick]. destruct (decide (c = "`"%char)); [done|]. intros Hs.
  change (String c body +:+ "```") with (String c (body +:+ "```")).
  cbn [replace_from]. rewrite prefix_backtick_false by done.
  by rewrite IH.
Qed.

Lemma replace_closing (body : string) :
  has_backtick body = false →
  replace_from "```" "" 0 (body +:+ "```") = body.
Proof.
  induction body as [|c body IH]; [done|].
  cbn [has_backtick]. destruct (decide (c = "`"%char)); [done|]. intros Hs.
  change (String c body +:+ "```") with (String c (body +:+ "```")).
  cbn [replace_from]. rewrite prefix_backtick_false by done.
  by rewrite IH.
Qed.

(** X10. The unwrapping of the classifier's answer does what it is there
    for: an answer fenced as a Markdown code block ([```json ... ```])
    whose content has no backtick is reduced to the content; an answer
    without any backtick is only stripped of surrounding white space. *)
Theorem clean_response_unwraps_fence (body : string) :
  has_backtick body = false →
  clean_response ("```json" +:+ body +:+ "```") = body
  ∧ clean_response body = py_strip body.
Proof.
  intros Hbody. unfold clean_response, py_replace, py_strip. split.
  - assert (lstrip ("```json" +:+ body +:+ "```")
            = ("```json" +:+ body) +:+ "```") as -> by reflexivity.
    rewrite rstrip_fence.
    assert (("```json" +:+ body) +:+ "```" = "```json" +:+ (body +:+ "```"))
      as -> by reflexivity.
    rewrite replace_opening, replace_opening_keeps_closing by done.
    by apply replace_closing.
  - assert (has_backtick (rstrip (lstrip body)) = false) as Hclean
      by by apply rstrip_no_backtick, lstrip_no_backtick.
    rewrite (replace_from_no_backtick _ _ _ Hclean).
    by rewrite (replace_from_no_backtick _ _ _ Hclean).
Qed.

End CleanResponse.

Lemma clean_response_unwraps_fence_witness :
  clean_response "```json{'is_duplicate': false}```" = "{'is_duplicate': false}"
  ∧ clean_response "{'is_duplicate': false}" = py_strip "{'is_duplicate': false}".
Proof.
  exact (clean_response_unwraps_fence "{'is_duplicate': false}" eq_refl).
Defined.

(** ** More on [update_status], [report_issue] and [upvote] *)

Section StatusAndReports.
Local Open Scope Z_scope.
Implicit Types (d : Db) (svc : Services).

(** Version 2 stores nothing: whenever it returns, the database is as it
    was. *)
Lemma update_status_v2_inv d me iid field d' r :
  update_status d me iid field = Ok (d', r) → d' = d.
Proof.
  unfold update_status, no_reporter, upvoters_query.
  repeat case_match; intros; by simplify_eq/=.
Qed.

(** What Version 1 did when it returned. *)
Lemma update_status_v1_inv d me iid field d' r :
  V1.update_status d me iid field = Ok (d', r) →
  d' = d
  ∨ ∃ moderator issue new_status reporter reporter',
      users d !! me = Some moderator ∧ is_moderator moderator = true
      ∧ issues d !! iid = Some issue
      ∧ field = Some new_status ∧ new_status ∈ valid_statuses
      ∧ users d !! reporter_id issue = Some reporter
      ∧ (reporter' = reporter
         ∨ new_status = "Resolved"
           ∧ ∃ points, reporter' = set_reputation (Some points) reporter)
      ∧ d' = mkDb (<[reporter_id issue := reporter']> (users d))
                  (<[iid := set_status new_status issue]> (issues d))
                  (upvotes d)
                  (notify_all d iid issue new_status).
Proof.
  intros H. unfold V1.update_status, no_reporter in H.
  destruct (users d !! me) as [moderator|] eqn:Hme;
    [|injection H as <- _; by left].
  destruct (is_moderator moderator) eqn:Hmod; simpl in H;
    [|injection H as <- _; by left].
  destruct (issues d !! iid) as [issue|] eqn:Hi;
    [|injection H as <- _; by left].
  destruct field as [new_status|]; [|injection H as <- _; by left].
  destruct (bool_decide (new_status ∈ valid_statuses)) eqn:Hvalid;
    [|injection H as <- _; by left].
  apply bool_decide_eq_true in Hvalid.
  destruct (users d !! reporter_id issue) as [reporter|] eqn:Hr; [|done].
  injection H as <- _. right.
  eexists moderator, issue, new_status, reporter, _.
  do 6 (split; [done|]). split; [|reflexivity].
  destruct (reputation_points reporter); [|by left].
  case_bool_decide; [right; eauto|by left].
Qed.

(** What either version of [update_status] can have done when it
    returned. *)
Lemma update_status_inv d me iid field d' r :
  update_status d me iid field = Ok (d', r)
  ∨ V1.update_status d me iid field = Ok (d', r) →
  d' = d
  ∨ ∃ moderator issue new_status reporter reporter',
      users d !! me = Some moderator ∧ is_moderator moderator = true
      ∧ issues d !! iid = Some issue
      ∧ field = Some new_status ∧ new_status ∈ valid_statuses
      ∧ users d !! reporter_id issue = Some reporter
      ∧ (reporter' = reporter
         ∨ new_status = "Resolved"
           ∧ ∃ points, reporter' = set_reputation (Some points) reporter)
      ∧ d' = mkDb (<[reporter_id issue := reporter']> (users d))
                  (<[iid := set_status new_status issue]> (issues d))
                  (upvotes d)
                  (notify_all d iid issue new_status).
Proof.
  intros [H|H]; [left; exact (update_status_v2_inv _ _ _ _ _ _ H)|].
  by apply update_status_v1_inv in H.
Qed.

(** What Version 1 does with a request that passes the guards. *)
Lemma update_status_v1_run d me iid moderator issue reporter new_status :
  users d !! me = Some moderator → is_moderator moderator = true →
  issues d !! iid = Some issue →
  users d !! reporter_id issue = Some reporter →
  new_status ∈ valid_statuses →
  ∃ reporter' r,
    V1.update_status d me iid (Some new_status)
    = Ok (mkDb (<[reporter_id issue := reporter']> (users d))
               (<[iid := set_status new_status issue]> (issues d))
               (upvotes d)
               (notify_all d iid issue new_status), r)
    ∧ reporter' = match reputation_points reporter with
                  | Some points =>
                      if bool_decide (new_status = "Resolved")
                      then set_reputation (Some (points + 20)) reporter
                      else reporter
                  | None => reporter
                  end.
Proof.
  intros Hme Hmod Hi Hr Hvalid. unfold V1.update_status.
  rewrite Hme, Hmod, Hi, Hr. cbn [negb].
  rewrite bool_decide_eq_true_2 by done. by eexists _, _.
Qed.


(** X12. Only 'Resolved' pays: in Version 1 a status update to 'Reported'
    or 'In Progress' leaves every user's reputation, and the whole user
    table, as it was. *)
Theorem update_status_pays_only_resolved d me iid new_status d' r :
  new_status ≠ "Resolved" →
  V1.update_status d me iid (Some new_status) = Ok (d', r) →
  users d' = users d.
Proof.
  intros Hne H. apply update_status_v1_inv in H
    as [->|(m & issue & s & rep & rep' & _ & _ & _ & [= <-] & _ & Hr & Hrep & ->)];
    [done|]. simpl.
  destruct Hrep as [->|[-> _]]; [|done]. by apply insert_id.
Qed.

(** X13. A status update of Version 1 that passes the guards (a
    moderator, a stored issue whose reporter exists, one of the three
    status names) completes: the issue carries the new status, no other
    issue and no vote is touched, the old notifications are kept, and one
    'status_update' notification with the issue's key, its category and
    the new status is added for the reporter and for each user who has
    voted for the issue, nobody being notified twice and nobody else at
    all. *)
Theorem update_status_notifies_followers
    d me iid moderator issue reporter new_status :
  users d !! me = Some moderator → is_moderator moderator = true →
  issues d !! iid = Some issue →
  users d !! reporter_id issue = Some reporter →
  new_status ∈ valid_statuses →
  ∃ d' r added,
    V1.update_status d me iid (Some new_status) = Ok (d', r)
    ∧ issues d' = <[iid := set_status new_status issue]> (issues d)
    ∧ upvotes d' = upvotes d
    ∧ notifications d' = notifications d ++ added
    ∧ Forall (λ n, name n = "status_update"
                   ∧ data n = JDict [("issue_id", JInt iid);
                                     ("issue_category", JStr (category issue));
                                     ("status", JStr new_status)]) added
    ∧ NoDup (user_id <$> added)
    ∧ ∀ user, user ∈ user_id <$> added ↔
        user = reporter_id issue
        ∨ (is_Some (users d !! user)
           ∧ ∃ k v, upvotes d !! k = Some v
                    ∧ issue_id v = iid ∧ voter_id v = user).
Proof.
  intros Hme Hmod Hi Hr Hvalid.
  destruct (update_status_v1_run d me iid moderator issue reporter new_status
              Hme Hmod Hi Hr Hvalid) as (reporter' & r & Hrun & _).
  eexists _, r,
    (status_notification iid issue new_status
       <$> elements (recipients d iid issue)).
  split; [exact Hrun|]. cbn [issues upvotes notifications].
  split; [done|]. split; [done|]. split; [done|].
  assert (user_id <$> (status_notification iid issue new_status
                         <$> elements (recipients d iid issue))
          = elements (recipients d iid issue)) as Hids.
  { rewrite <- list_fmap_compose. apply list_fmap_id. }
  split; [by apply Forall_fmap, Forall_true|].
  rewrite Hids. split; [apply NoDup_elements|].
  intros user. rewrite elem_of_elements. unfold recipients.
  rewrite elem_of_union, elem_of_singleton, elem_of_filter, elem_of_list_to_set,
    list_elem_of_fmap.
  split; (intros [->|[Huser Hvote]]; [by left|right; split; [done|]]).
  - destruct Hvote as ([k v] & -> & Hkv). exists k, v.
    apply elem_of_map_to_list in Hkv.
    apply map_lookup_filter_Some in Hkv as [? ?]. by simpl in *.
  - destruct Hvote as (k & v & Hk & Hv & <-). exists (k, v). split; [done|].
    apply elem_of_map_to_list, map_lookup_filter_Some. by simpl.
Qed.

(** X14. In Version 1 the points for 'Resolved' are granted at every such
    update, not only at the first: two updates to 'Resolved' in succession
    add 40 to the reporter's points. *)
Theorem resolved_twice_grants_forty d me iid moderator issue reporter points :
  users d !! me = Some moderator → is_moderator moderator = true →
  issues d !! iid = Some issue →
  users d !! reporter_id issue = Some reporter →
  reputation_points reporter = Some points →
  ∃ d1 r1 d2 r2,
    V1.update_status d me iid (Some "Resolved") = Ok (d1, r1)
    ∧ V1.update_status d1 me iid (Some "Resolved") = Ok (d2, r2)
    ∧ stored_points d2 (reporter_id issue) = Some (Some (points + 40)).
Proof.
  intros Hme Hmod Hi Hr Hp.
  assert ("Resolved" ∈ valid_statuses) as Hvalid
    by (unfold valid_statuses; rewrite !elem_of_cons; auto).
  destruct (update_status_v1_run d me iid moderator issue reporter "Resolved"
              Hme Hmod Hi Hr Hvalid) as (rep1 & r1 & Hrun1 & Hrep1).
  rewrite Hp, bool_decide_eq_true_2 in Hrep1 by done. subst rep1.
  set (rep1 := set_reputation (Some (points + 20)) reporter).
  set (d1 := mkDb (<[reporter_id issue := rep1]> (users d))
                  (<[iid := set_status "Resolved" issue]> (issues d))
                  (upvotes d) (notify_all d iid issue "Resolved")) in *.
  assert (∃ m', users d1 !! me = Some m' ∧ is_moderator m' = true)
    as (m' & Hme' & Hmod').
  { unfold d1. cbn [users].
    destruct (decide (reporter_id issue = me)) as [Heq|Hne].
    - rewrite Heq, lookup_insert_eq. exists rep1. split; [done|].
      rewrite Heq, Hme in Hr. injection Hr as <-. exact Hmod.
    - rewrite lookup_insert_ne by done. eauto. }
  destruct (update_status_v1_run d1 me iid m' (set_status "Resolved" issue)
              rep1 "Resolved" Hme' Hmod')
    as (rep2 & r2 & Hrun2 & Hrep2); [apply lookup_insert_eq
                                    |apply lookup_insert_eq|done|].
  cbn [reputation_points rep1 set_reputation] in Hrep2.
  rewrite bool_decide_eq_true_2 in Hrep2 by done.
  eexists _, r1, _, r2. split; [exact Hrun1|]. split; [exact Hrun2|].
  unfold stored_points. cbn [users]. rewrite lookup_insert_eq, Hrep2.
  cbn [fmap option_fmap option_map reputation_points set_reputation].
  do 2 f_equal. lia.
Qed.

(** X26. Version 2 stores no status update. A request that passes the
    guards (a moderator, a stored issue, one of the three status names)
    raises: [InvalidRequestError] at the query for the voters, which asks
    for an eager load of [User.upvotes], or, for 'Resolved' on an issue
    without reporter, [AttributeError] before that. A request that
    completes did not pass the guards and leaves the database as it was.
    So in Version 2 no status is changed, no points are granted for
    'Resolved' and no notification is stored. *)
Theorem update_status_v2_stores_nothing d me iid moderator issue new_status :
  users d !! me = Some moderator → is_moderator moderator = true →
  issues d !! iid = Some issue → new_status ∈ valid_statuses →
  (∃ e, update_status d me iid (Some new_status) = Raise e
        ∧ (is_Some (users d !! reporter_id issue) ∨ new_status ≠ "Resolved" →
           ∃ msg, e = InvalidRequestError msg))
  ∧ ∀ me' iid' field d' r,
      update_status d me' iid' field = Ok (d', r) → d' = d.
Proof.
  intros Hme Hmod Hi Hvalid. split.
  - unfold update_status, no_reporter, upvoters_query.
    rewrite Hme, Hmod, Hi. cbn [negb].
    rewrite bool_decide_eq_true_2 by done.
    case_bool_decide as Hres.
    + destruct (users d !! reporter_id issue) as [reporter|]; cbn.
      * eexists. split; [done|]. eauto.
      * eexists. split; [done|]. intros [Hsome|Hne]; [by destruct Hsome|done].
    + cbn. eexists. split; [done|]. eauto.
  - intros me' iid' field d' r. apply update_status_v2_inv.
Qed.

(** What [report_issue] can have done when it returned. *)
Lemma report_issue_inv svc d user form lat lng d' r :
  report_issue svc d user form lat lng = Ok (d', r) →
  d' = d
  ∨ ∃ reporter la lo geo,
      users d !! user = Some reporter ∧ form_valid form = true
      ∧ lat = Some la ∧ lng = Some lo
      ∧ PrimFloat.is_nan la = false ∧ PrimFloat.is_nan lo = false
      ∧ d' = mkDb (<[user := set_reputation
                               (Some (or_zero (reputation_points reporter) + 5))
                               reporter]> (users d))
                  (<[new_id (issues d) :=
                       mkIssue (form_category form) (form_description form) la lo
                               (Some (form_location_text form)) (form_photo form)
                               "Reported" (Some 0) None geo user]> (issues d))
                  (upvotes d) (notifications d).
Proof.
  unfold report_issue, not_null.
  destruct (users d !! user) as [reporter|]; [|intros [= <- _]; by left].
  destruct (form_valid form); simpl; [|intros [= <- _]; by left].
  destruct lat as [la|], lng as [lo|]; try (intros [= <- _]; by left).
  destruct (str_truthy (form_geojson form));
    [destruct (json_loads svc (form_geojson form)); simpl; [|done]|simpl];
    (destruct (PrimFloat.is_nan la) eqn:Hla; [done|]);
    (destruct (PrimFloat.is_nan lo) eqn:Hlo; [done|]);
    simpl; intros [= <- _]; right; by eexists _, _, _, _.
Qed.


(** X16. A report that is not accepted changes nothing: with an invalid
    form or a missing coordinate the handler answers 400 and the database
    is as before; when the submitted GeoJSON does not parse the handler
    raises, and nothing is committed either. *)
Theorem report_issue_rejects_without_change svc d user reporter form lat lng :
  users d !! user = Some reporter →
  (form_valid form = false ∨ lat = None ∨ lng = None →
   ∃ body, report_issue svc d user form lat lng = Ok (d, JsonResponse 400 body))
  ∧ (∀ e la lo,
       form_valid form = true → lat = Some la → lng = Some lo →
       str_truthy (form_geojson form) = true →
       json_loads svc (form_geojson form) = Raise e →
       report_issue svc d user form lat lng = Raise e).
Proof.
  intros Hu. unfold report_issue. rewrite Hu. split.
  - intros Hbad. destruct (form_valid form); simpl; [|by eexists].
    destruct Hbad as [?|[-> | ->]]; [done|by eexists|].
    destruct lat; by eexists.
  - intros e la lo -> -> -> -> ->. done.
Qed.

End StatusAndReports.

Section UpvoteMore.
Local Open Scope Z_scope.
Implicit Types (d : Db).

(** What [upvote] can have done when it returned. *)
Lemma upvote_inv d user iid d' r :
  upvote d user iid = Ok (d', r) →
  (issues d !! iid = None ∧ d' = d
   ∧ ∃ body, r = JsonResponse 404 body)
  ∨ ∃ issue reporter,
      issues d !! iid = Some issue
      ∧ users d !! reporter_id issue = Some reporter
      ∧ ((existing_upvote d user iid = None
          ∧ r = upvote_response (or_zero (upvote_count issue) + 1) true
          ∧ d' = mkDb (<[reporter_id issue :=
                           set_reputation
                             (Some (or_zero (reputation_points reporter) + 2))
                             reporter]> (users d))
                      (<[iid := set_upvote_count (or_zero (upvote_count issue) + 1)
                                                 issue]> (issues d))
                      (<[new_id (upvotes d) := mkUpvote user iid]> (upvotes d))
                      (notifications d))
         ∨ (∃ k v, existing_upvote d user iid = Some (k, v)
              ∧ r = upvote_response (or_zero (upvote_count issue) - 1) false
              ∧ d' = mkDb (<[reporter_id issue :=
                               set_reputation
                                 (Some (or_zero (reputation_points reporter) - 2))
                                 reporter]> (users d))
                          (<[iid := set_upvote_count
                                      (or_zero (upvote_count issue) - 1) issue]>
                             (issues d))
                          (delete k (upvotes d))
                          (notifications d))).
Proof.
  unfold upvote, no_reporter.
  destruct (issues d !! iid) as [issue|] eqn:Hi;
    [|intros [= <- <-]; left; split; [done|]; split; [done|]; by eexists].
  destruct (users d !! reporter_id issue) as [reporter|] eqn:Hr; [|done].
  destruct (existing_upvote d user iid) as [[k v]|] eqn:He;
    intros [= <- <-]; right; exists issue, reporter;
    (split; [done|]); (split; [done|]).
  - right. by exists k, v.
  - by left.
Qed.


Lemma no_votes_on_free_key d key :
  votes_refer_to_issues d → issues d !! key = None → votes_on d key = ∅.
Proof.
  intros Hrefer Hfree. unfold votes_on. apply map_empty_filter_2.
  intros k v Hk Hv. simpl in Hv. subst key.
  destruct (Hrefer k v Hk) as [issue Hissue]. congruence.
Qed.

(** X18. The vote tables stay consistent. If every Upvote row names a
    stored issue, every count agrees with the number of rows of its issue
    and no user holds two rows for one issue, then the same is true after
    [report_issue], after [upvote] and after [update_status] (either
    version). *)
Theorem handlers_keep_votes_consistent svc d :
  consistent_votes d →
  (∀ user form lat lng d' r,
     report_issue svc d user form lat lng = Ok (d', r) → consistent_votes d')
  ∧ (∀ user iid d' r,
       upvote d user iid = Ok (d', r) → consistent_votes d')
  ∧ (∀ me iid field d' r,
       update_status d me iid field = Ok (d', r)
       ∨ V1.update_status d me iid field = Ok (d', r) →
       consistent_votes d').
Proof.
  intros (Hrefer & Hcount & Hsingle). split; [|split].
  - intros user form lat lng d' r H.
    apply report_issue_inv in H
      as [->|(rep & la & lo & geo & _ & _ & _ & _ & _ & _ & ->)]; [done|].
    pose proof (new_id_fresh (issues d)) as Hfresh.
    split; [|split].
    + intros k v Hk. simpl in *. destruct (Hrefer k v Hk) as [issue Hissue].
      destruct (decide (new_id (issues d) = issue_id v)) as [Heq|Hne].
      * rewrite Heq in Hfresh. congruence.
      * rewrite lookup_insert_ne by done. eauto.
    + intros j issue. unfold vote_records, votes_on. simpl.
      destruct (decide (new_id (issues d) = j)) as [<-|Hne].
      * rewrite lookup_insert_eq. intros [= <-]. simpl.
        pose proof (no_votes_on_free_key d _ Hrefer Hfresh) as Hnone.
        unfold votes_on in Hnone. by rewrite Hnone, map_size_empty.
      * rewrite lookup_insert_ne by done. apply Hcount.
    + exact Hsingle.
  - intros user iid d' r H.
    pose proof (upvote_keeps_single_vote d user iid d' r H (Hsingle user iid))
      as Hthis.
    pose proof H as Hinv. apply upvote_inv in Hinv
      as [(_ & -> & _)
         |(issue & reporter & Hi & Hr
           & [(He & _ & Hd)|(k & v & He & _ & Hd)])]; [done| |].
    + split; [|split].
      * subst d'. intros k' v' Hk'. simpl in *.
        apply lookup_insert_Some in Hk' as [[_ <-]|[_ Hk']]; simpl.
        -- rewrite lookup_insert_eq. eauto.
        -- destruct (Hrefer k' v' Hk') as [issue' Hissue'].
           destruct (decide (iid = issue_id v')) as [<-|Hne].
           ++ rewrite lookup_insert_eq. eauto.
           ++ rewrite lookup_insert_ne by done. eauto.
      * intros j issue' Hissue'.
        destruct (upvote_effect d user iid issue d' r Hi H) as [Hother Hthis'].
        destruct (decide (j = iid)) as [->|Hne].
        -- specialize (Hcount iid issue Hi).
           destruct Hthis' as [[Hi' Hn]|[Hi' Hn]];
             rewrite Hi' in Hissue'; injection Hissue' as <-; simpl; lia.
        -- destruct (Hother j Hne) as [Hi' Hv].
           unfold vote_records. rewrite Hv. apply Hcount. by rewrite <- Hi'.
      * intros user' iid'.
        destruct (decide ((user', iid') = (user, iid))) as [[= -> ->]|Hne];
          [done|].
        subst d'. unfold votes_of. simpl.
        rewrite filter_insert_other; [apply Hsingle|apply new_id_fresh|].
        simpl. intros [<- <-]. done.
    + apply existing_upvote_Some in He as (Hk & Hu & Hv).
      split; [|split].
      * subst d'. intros k' v' Hk'. simpl in *.
        apply lookup_delete_Some in Hk' as [_ Hk'].
        destruct (Hrefer k' v' Hk') as [issue' Hissue'].
        destruct (decide (iid = issue_id v')) as [<-|Hne].
        -- rewrite lookup_insert_eq. eauto.
        -- rewrite lookup_insert_ne by done. eauto.
      * intros j issue' Hissue'.
        destruct (upvote_effect d user iid issue d' r Hi H) as [Hother Hthis'].
        destruct (decide (j = iid)) as [->|Hne].
        -- specialize (Hcount iid issue Hi).
           destruct Hthis' as [[Hi' Hn]|[Hi' Hn]];
             rewrite Hi' in Hissue'; injection Hissue' as <-; simpl; lia.
        -- destruct (Hother j Hne) as [Hi' Hv'].
           unfold vote_records. rewrite Hv'. apply Hcount. by rewrite <- Hi'.
      * intros user' iid'.
        destruct (decide ((user', iid') = (user, iid))) as [[= -> ->]|Hne];
          [done|].
        subst d'. unfold votes_of. simpl.
        erewrite filter_delete_other; [apply Hsingle|done|].
        simpl. intros [<- <-]. congruence.
  - intros me iid field d' r H.
    apply update_status_inv in H
      as [->|(m & issue & s & rep & rep' & _ & _ & Hi & _ & _ & _ & _ & ->)];
      [done|].
    split; [|split].
    + intros k v Hk. simpl in *. destruct (Hrefer k v Hk) as [issue' Hissue'].
      destruct (decide (iid = issue_id v)) as [<-|Hne].
      * rewrite lookup_insert_eq. eauto.
      * rewrite lookup_insert_ne by done. eauto.
    + intros j issue'. unfold vote_records, votes_on. simpl.
      destruct (decide (iid = j)) as [<-|Hne].
      * rewrite lookup_insert_eq. intros [= <-]. simpl. by apply Hcount.
      * rewrite lookup_insert_ne by done. apply Hcount.
    + exact Hsingle.
Qed.

Lemma empty_tables_consistent d :
  issues d = ∅ → upvotes d = ∅ → consistent_votes d.
Proof.
  intros Hi Hu. split; [|split].
  - intros k v. by rewrite Hu, lookup_empty.
  - intros j issue. by rewrite Hi, lookup_empty.
  - intros user iid. unfold votes_of.
    rewrite Hu, map_filter_empty, map_size_empty. lia.
Qed.

End UpvoteMore.

Lemma update_status_pays_only_resolved_witness :
  ∃ d' r,
    V1.update_status Examples.voted_db 2 7 (Some "In Progress") = Ok (d', r)
    ∧ status <$> issues d' !! 7%Z = Some "In Progress"
    ∧ users d' = users Examples.voted_db.
Proof.
  eexists _, _. split; [reflexivity|]. split; [reflexivity|].
  eapply (update_status_pays_only_resolved Examples.voted_db 2 7 "In Progress" _ _);
    [discriminate|reflexivity].
Defined.

Lemma update_status_notifies_followers_witness :
  ∃ d' r added,
    V1.update_status Examples.voted_db 2 7 (Some "Resolved") = Ok (d', r)
    ∧ status <$> issues d' !! 7%Z = Some "Resolved"
    ∧ notifications d' = notifications Examples.voted_db ++ added
    ∧ NoDup (user_id <$> added)
    ∧ (1%Z ∈ user_id <$> added) ∧ (2%Z ∈ user_id <$> added).
Proof.
  assert ("Resolved" ∈ valid_statuses) as Hvalid
    by (unfold valid_statuses; rewrite !elem_of_cons; auto).
  destruct (update_status_notifies_followers Examples.voted_db 2 7
              Examples.moderator _ _ "Resolved" eq_refl eq_refl eq_refl eq_refl
              Hvalid)
    as (d' & r & added & Hrun & Hissues & _ & Hnotes & _ & Hnd & Hwho).
  exists d', r, added. split; [exact Hrun|].
  split; [by rewrite Hissues, lookup_insert_eq|].
  split; [exact Hnotes|]. split; [exact Hnd|]. split.
  - apply Hwho. by left.
  - apply Hwho. right. split; [by eexists|].
    exists 5%Z, (mkUpvote 2 7). by repeat split.
Defined.

Lemma resolved_twice_grants_forty_witness :
  ∃ d1 r1 d2 r2,
    V1.update_status Examples.voted_db 2 7 (Some "Resolved") = Ok (d1, r1)
    ∧ V1.update_status d1 2 7 (Some "Resolved") = Ok (d2, r2)
    ∧ stored_points Examples.voted_db 1 = Some (Some 2%Z)
    ∧ stored_points d2 1 = Some (Some 42%Z).
Proof.
  destruct (resolved_twice_grants_forty Examples.voted_db 2 7 Examples.moderator
              _ _ 2 eq_refl eq_refl eq_refl eq_refl eq_refl)
    as (d1 & r1 & d2 & r2 & H1 & H2 & Hp).
  exists d1, r1, d2, r2. split; [exact H1|]. split; [exact H2|].
  split; [reflexivity|exact Hp].
Defined.

Lemma update_status_v2_stores_nothing_witness :
  ∃ msg, update_status Examples.voted_db 2 7 (Some "In Progress")
         = Raise (InvalidRequestError msg).
Proof.
  assert ("In Progress" ∈ valid_statuses) as Hvalid
    by (unfold valid_statuses; rewrite !elem_of_cons; auto).
  destruct (update_status_v2_stores_nothing Examples.voted_db 2 7
              Examples.moderator _ "In Progress" eq_refl eq_refl eq_refl Hvalid)
    as [(e & Hrun & Hkind) _].
  destruct Hkind as [msg ->]; [left; by eexists|]. by exists msg.
Defined.


Lemma report_issue_rejects_without_change_witness :
  ∃ body,
    report_issue Examples.services Examples.empty_db 1 Examples.form
      None (Some 20%float) = Ok (Examples.empty_db, JsonResponse 400 body).
Proof.
  apply (proj1 (report_issue_rejects_without_change Examples.services
                  Examples.empty_db 1 Examples.reporter Examples.form None
                  (Some 20%float) eq_refl)).
  right. by left.
Defined.


Lemma voted_db_consistent : consistent_votes Examples.voted_db.
Proof.
  split; [|split].
  - intros k v Hk. unfold Examples.voted_db in Hk. cbn [upvotes] in Hk.
    apply lookup_insert_Some in Hk as [[<- <-]|[_ Hk]];
      [eexists; reflexivity|by rewrite lookup_empty in Hk].
  - intros iid issue Hi. unfold Examples.voted_db in Hi. cbn [issues] in Hi.
    apply lookup_insert_Some in Hi as [[<- <-]|[_ Hi]];
      [reflexivity|by rewrite lookup_empty in Hi].
  - intros user iid. etrans; [apply map_subseteq_size, map_filter_subseteq|].
    vm_compute. lia.
Qed.

Lemma handlers_keep_votes_consistent_witness :
  consistent_votes Examples.voted_db
  ∧ (∃ d' r, upvote Examples.voted_db 2 7 = Ok (d', r)
             ∧ vote_records d' 7 = 0%nat ∧ consistent_votes d')
  ∧ (∃ d' r, upvote Examples.voted_db 1 7 = Ok (d', r)
             ∧ vote_records d' 7 = 2%nat ∧ consistent_votes d')
  ∧ (∃ d' r, V1.update_status Examples.voted_db 2 7 (Some "Resolved") = Ok (d', r)
             ∧ consistent_votes d')
  ∧ (∃ d' r, report_issue Examples.services Examples.voted_db 1 Examples.form
               (Some 10%float) (Some 20%float) = Ok (d', r)
             ∧ consistent_votes d').
Proof.
  destruct (handlers_keep_votes_consistent Examples.services Examples.voted_db
              voted_db_consistent) as (Hreport & Hvote & Hstatus).
  split; [exact voted_db_consistent|]. split; [|split; [|split]].
  - eexists _, _. split; [reflexivity|]. split; [reflexivity|].
    by eapply (Hvote 2%Z 7%Z).
  - eexists _, _. split; [reflexivity|]. split; [reflexivity|].
    by eapply (Hvote 1%Z 7%Z).
  - eexists _, _. split; [reflexivity|].
    eapply (Hstatus 2%Z 7%Z (Some "Resolved")). by right.
  - eexists _, _. split; [reflexivity|].
    by eapply (Hreport 1%Z Examples.form (Some 10%float) (Some 20%float)).
Defined.

(** ** The home page ([index]) *)

Section HomePage.
Local Open Scope Z_scope.
Implicit Types (d : Db).

Lemma elem_of_upvoted_issue_ids d current_user iid :
  iid ∈ upvoted_issue_ids d current_user
  ↔ ∃ user k v, current_user = Some user ∧ upvotes d !! k = Some v
                ∧ voter_id v = user ∧ issue_id v = iid.
Proof.
  unfold upvoted_issue_ids. destruct current_user as [user|].
  - rewrite elem_of_list_to_set, list_elem_of_fmap. split.
    + intros ([k v] & -> & Hin).
      apply elem_of_map_to_list, map_lookup_filter_Some in Hin as [Hk Hu].
      simpl in *. by exists user, k, v.
    + intros (u & k & v & [= <-] & Hk & Hu & Hi). exists (k, v).
      split; [done|]. by apply elem_of_map_to_list, map_lookup_filter_Some.
  - split; [set_solver|]. by intros (? & ? & ? & ? & _).
Qed.

Lemma existing_upvote_is_Some d user iid :
  is_Some (existing_upvote d user iid)
  ↔ ∃ k v, upvotes d !! k = Some v ∧ voter_id v = user ∧ issue_id v = iid.
Proof.
  split.
  - intros [[k v] He]. exists k, v. by apply existing_upvote_Some.
  - intros (k & v & Hk & Hu & Hi).
    destruct (existing_upvote d user iid) as [row|] eqn:He; [done|].
    apply existing_upvote_None in He.
    assert (votes_of d user iid !! k = Some v) as Hin
      by by apply map_lookup_filter_Some.
    by rewrite He in Hin.
Qed.

Lemma filter_key_absent {A B} (g : Z * A → B) (key : B → Z) (l : list (Z * A)) k :
  (∀ row, key (g row) = row.1) → k ∉ l.*1 →
  filter (λ x, key x = k) (g <$> l) = [].
Proof.
  intros Hkey. induction l as [|row l IH]; [done|].
  rewrite fmap_cons, not_elem_of_cons. intros [Hne Hl]. simpl.
  rewrite filter_cons, decide_False by (rewrite Hkey; congruence). auto.
Qed.

Lemma filter_key_present {A B} (g : Z * A → B) (key : B → Z) (l : list (Z * A)) k a :
  (∀ row, key (g row) = row.1) → NoDup l.*1 → (k, a) ∈ l →
  filter (λ x, key x = k) (g <$> l) = [g (k, a)].
Proof.
  intros Hkey. induction l as [|row l IH]; [by intros _ ?%elem_of_nil|].
  rewrite fmap_cons, NoDup_cons, elem_of_cons. intros [Hrow Hnd] Hin. simpl.
  rewrite filter_cons. destruct (decide (key (g row) = k)) as [Hk|Hk].
  - rewrite Hkey in Hk. destruct Hin as [<-|Hin].
    + f_equal. apply filter_key_absent; [done|]. by rewrite <- Hk.
    + exfalso. apply Hrow. rewrite Hk. apply list_elem_of_fmap.
      by exists (k, a).
  - destruct Hin as [<-|Hin]; [by rewrite Hkey in Hk|]. auto.
Qed.

(** The entry of the home page for a stored issue. *)
Lemma issues_data_entry d current_user iid issue :
  issues d !! iid = Some issue →
  filter (λ x, datum_id x = iid) (issues_data d current_user)
  = [mkIssueDatum iid (latitude issue) (longitude issue) (category issue)
                  (or_zero (upvote_count issue))
                  (bool_decide (iid ∈ upvoted_issue_ids d current_user))
                  (status issue)].
Proof.
  intros Hissue. unfold issues_data.
  rewrite (filter_key_present _ datum_id _ iid issue); [done|done|..].
  - apply NoDup_fst_map_to_list.
  - by apply elem_of_map_to_list.
Qed.

(** X19. The home page lists every stored issue exactly once, and nothing
    else: the entries are as many as the stored issues, each carries the
    key of a stored issue, and the one entry of a stored issue shows its
    category as the title, its status, its count with an unset count shown
    as 0, and the flag [user_has_voted], which is set exactly when the
    visitor is logged in and holds an Upvote row for the issue. *)
Theorem index_lists_every_issue d current_user iid issue :
  issues d !! iid = Some issue →
  length (issues_data d current_user) = size (issues d)
  ∧ (∀ datum, datum ∈ issues_data d current_user →
       is_Some (issues d !! datum_id datum))
  ∧ ∃ datum,
      filter (λ x, datum_id x = iid) (issues_data d current_user) = [datum]
      ∧ datum_title datum = category issue
      ∧ datum_status datum = status issue
      ∧ datum_upvotes datum = or_zero (upvote_count issue)
      ∧ (datum_user_has_voted datum = true
         ↔ ∃ user, current_user = Some user
                   ∧ is_Some (existing_upvote d user iid)).
Proof.
  intros Hissue. split; [|split].
  - unfold issues_data. by rewrite length_fmap, length_map_to_list.
  - intros datum ([j i] & -> & Hin)%list_elem_of_fmap. simpl.
    apply elem_of_map_to_list in Hin. by exists i.
  - eexists. split; [by apply issues_data_entry|]. simpl.
    do 3 (split; [done|]).
    rewrite bool_decide_eq_true, elem_of_upvoted_issue_ids. split.
    + intros (user & k & v & -> & Hk). exists user. split; [done|].
      apply existing_upvote_is_Some. by exists k, v.
    + intros (user & -> & (k & v & Hk)%existing_upvote_is_Some).
      by exists user, k, v.
Qed.

(** X20. The home page after a vote toggle. When the user holds at most
    one Upvote row for the issue and [upvote] answers with a count and a
    flag [voted], the home page rendered next for that user shows exactly
    that count and that flag on the issue's entry. *)
Theorem index_reflects_upvote d user iid d' count voted :
  (size (votes_of d user iid) ≤ 1)%nat →
  upvote d user iid = Ok (d', upvote_response count voted) →
  ∃ datum,
    filter (λ x, datum_id x = iid) (issues_data d' (Some user)) = [datum]
    ∧ datum_upvotes datum = count
    ∧ datum_user_has_voted datum = voted.
Proof.
  intros Hone Hup.
  destruct (upvote_inv _ _ _ _ _ Hup)
    as [(_ & _ & body & [=])
       |(issue & reporter & Hissue & Hrep
         & [(Hex & [= -> ->] & ->)|(k & v & Hex & [= -> ->] & ->)])].
  - eexists. split; [apply issues_data_entry; simpl; apply lookup_insert_eq|].
    cbn [datum_upvotes datum_user_has_voted or_zero upvote_count set_upvote_count].
    split; [done|].
    rewrite bool_decide_eq_true, elem_of_upvoted_issue_ids.
    exists user, (new_id (upvotes d)), (mkUpvote user iid). simpl.
    by rewrite lookup_insert_eq.
  - eexists. split; [apply issues_data_entry; simpl; apply lookup_insert_eq|].
    cbn [datum_upvotes datum_user_has_voted or_zero upvote_count set_upvote_count].
    split; [done|].
    rewrite bool_decide_eq_false, elem_of_upvoted_issue_ids.
    intros (u & k' & v' & [= <-] & Hk' & Hu & Hi).
    pose proof (existing_after_remove d user iid k v
                  (<[reporter_id issue :=
                       set_reputation
                         (Some (or_zero (reputation_points reporter) - 2))
                         reporter]> (users d))
                  (<[iid := set_upvote_count (or_zero (upvote_count issue) - 1)
                                             issue]> (issues d))
                  (notifications d) Hone Hex) as Hnone.
    assert (is_Some (existing_upvote
                       (mkDb (<[reporter_id issue :=
                                  set_reputation
                                    (Some (or_zero (reputation_points reporter) - 2))
                                    reporter]> (users d))
                             (<[iid := set_upvote_count
                                         (or_zero (upvote_count issue) - 1) issue]>
                                (issues d))
                             (delete k (upvotes d)) (notifications d))
                       user iid)) as [row Hsome]
      by (apply existing_upvote_is_Some; by exists k', v').
    by rewrite Hnone in Hsome.
Qed.
End HomePage.

(** ** The weekly report ([generate_report], [generate_weekly_report]) *)

Section WeeklyReport.
Local Open Scope Z_scope.
Implicit Types (recent : list (Z * Issue)) (counts : list (string * Z)).

Lemma counts_get_set key n counts c :
  counts_get c (counts_set key n counts)
  = if decide (c = key) then n else counts_get c counts.
Proof.
  induction counts as [|[k m] counts IH]; simpl.
  - destruct (decide (key = c)), (decide (c = key)); congruence.
  - destruct (decide (k = key)) as [->|Hk]; simpl.
    + destruct (decide (key = c)), (decide (c = key)); congruence.
    + destruct (decide (k = c)) as [->|Hc]; [by rewrite decide_False|done].
Qed.

Lemma sum_counts_set key n counts :
  sum_counts (counts_set key n counts)
  = sum_counts counts - counts_get key counts + n.
Proof.
  induction counts as [|[k m] counts IH]; simpl; [lia|].
  destruct (decide (k = key)); simpl; lia.
Qed.

Lemma keys_counts_set key n counts :
  (counts_set key n counts).*1
  = if decide (key ∈ counts.*1) then counts.*1 else counts.*1 ++ [key].
Proof.
  induction counts as [|[k m] counts IH]; [done|].
  cbn [counts_set]. destruct (decide (k = key)) as [->|Hk];
    rewrite !fmap_cons; cbn [fst].
  - rewrite decide_True; [done|left].
  - rewrite IH. destruct (decide (key ∈ counts.*1)) as [Hin|Hin].
    + rewrite decide_True; [done|by right].
    + rewrite decide_False; [done|]. by intros [->|?]%elem_of_cons.
Qed.

Lemma elem_of_counts counts c n :
  NoDup counts.*1 →
  (c, n) ∈ counts ↔ c ∈ counts.*1 ∧ counts_get c counts = n.
Proof.
  induction counts as [|[k m] counts IH]; simpl.
  - intros _. split; [by intros ?%elem_of_nil|by intros [?%elem_of_nil _]].
  - rewrite NoDup_cons, !elem_of_cons. intros [Hk Hnd].
    destruct (decide (k = c)) as [->|Hne].
    + split.
      * intros [[= ->]|Hin]; [by auto|]. exfalso. apply Hk.
        apply list_elem_of_fmap. by exists (c, n).
      * intros [_ ->]. by left.
    + rewrite IH by done. split.
      * intros [[= <- _]|[? ?]]; [done|]. auto.
      * intros [[->|?] ?]; [done|]. auto.
Qed.

Lemma issues_by_cat_snoc recent row :
  issues_by_cat (recent ++ [row])
  = counts_set (category row.2)
               (counts_get (category row.2) (issues_by_cat recent) + 1)
               (issues_by_cat recent).
Proof. unfold issues_by_cat. by rewrite foldl_app. Qed.

Lemma issues_in_snoc recent row c :
  issues_in (recent ++ [row]) c
  = issues_in recent c + (if decide (c = category row.2) then 1 else 0).
Proof.
  unfold issues_in. rewrite filter_app, length_app, filter_cons, filter_nil.
  destruct (decide (category row.2 = c)), (decide (c = category row.2));
    simpl; try congruence; lia.
Qed.

Lemma issues_by_cat_get recent c :
  counts_get c (issues_by_cat recent) = issues_in recent c.
Proof.
  induction recent as [|row recent IH] using rev_ind; [done|].
  rewrite issues_by_cat_snoc, issues_in_snoc, counts_get_set.
  destruct (decide (c = category row.2)) as [->|]; lia.
Qed.

Lemma issues_by_cat_keys recent :
  NoDup (issues_by_cat recent).*1
  ∧ ∀ c, c ∈ (issues_by_cat recent).*1 ↔ ∃ row, row ∈ recent ∧ category row.2 = c.
Proof.
  induction recent as [|row recent [IHnd IHin]] using rev_ind.
  - split; [constructor|]. intros c. simpl. rewrite elem_of_nil.
    split; [done|]. by intros (? & ?%elem_of_nil & _).
  - rewrite issues_by_cat_snoc, keys_counts_set.
    destruct (decide (category row.2 ∈ (issues_by_cat recent).*1)) as [Hin|Hin].
    + split; [done|]. intros c. rewrite IHin. split.
      * intros (r & Hr & Hc). exists r. rewrite elem_of_app. auto.
      * intros (r & [Hr|Hr%list_elem_of_singleton]%elem_of_app & Hc).
        -- by exists r.
        -- subst r. rewrite <- Hc. by apply IHin.
    + split.
      * apply NoDup_app. split; [done|]. split; [|apply NoDup_singleton].
        intros c Hc Hc'%list_elem_of_singleton. by subst c.
      * intros c. rewrite elem_of_app, list_elem_of_singleton, IHin. split.
        -- intros [(r & Hr & Hc)| ->].
           ++ exists r. rewrite elem_of_app. auto.
           ++ exists row. rewrite elem_of_app, list_elem_of_singleton. auto.
        -- intros (r & [Hr|Hr%list_elem_of_singleton]%elem_of_app & Hc);
             [left; by exists r|right; by subst r].
Qed.

Lemma issues_in_positive recent row :
  row ∈ recent → 0 < issues_in recent (category row.2).
Proof.
  intros Hin. unfold issues_in.
  assert (row ∈ filter (λ r, category r.2 = category row.2) recent) as Hf
    by by apply list_elem_of_filter.
  destruct (filter _ recent); [by apply elem_of_nil in Hf|simpl; lia].
Qed.

Lemma sum_issues_by_cat recent :
  sum_counts (issues_by_cat recent) = Z.of_nat (length recent).
Proof.
  induction recent as [|row recent IH] using rev_ind; [done|].
  rewrite issues_by_cat_snoc, sum_counts_set, length_app. simpl. lia.
Qed.

(** X21. The breakdown by category of the weekly report. Each category
    is listed once; a category is listed with a number exactly when that
    number is positive and is the number of the week's issues of that
    category; and the numbers add up to the total the report states. *)
Theorem issues_by_cat_counts recent :
  NoDup (issues_by_cat recent).*1
  ∧ (∀ c n, (c, n) ∈ issues_by_cat recent ↔ n = issues_in recent c ∧ 0 < n)
  ∧ sum_counts (issues_by_cat recent) = Z.of_nat (length recent).
Proof.
  destruct (issues_by_cat_keys recent) as [Hnd Hkeys].
  split; [done|]. split; [|apply sum_issues_by_cat].
  intros c n. rewrite elem_of_counts, issues_by_cat_get, Hkeys by done. split.
  - intros [(row & Hrow & <-) <-]. split; [done|]. by apply issues_in_positive.
  - intros [-> Hpos]. split; [|done]. unfold issues_in in Hpos.
    destruct (filter _ recent) as [|row rest] eqn:Hf; [simpl in Hpos; lia|].
    assert (row ∈ filter (λ r, category r.2 = c) recent) as Hin
      by (rewrite Hf; left).
    apply list_elem_of_filter in Hin as [Hc Hin]. by exists row.
Qed.

Lemma max_from_spec {A} (key : A → Z) (items : list A) (best : A) :
  (max_from key best items = best ∧ ∀ x, x ∈ items → key x ≤ key best)
  ∨ ∃ before after,
      items = before ++ max_from key best items :: after
      ∧ key best < key (max_from key best items)
      ∧ (∀ x, x ∈ before → key x < key (max_from key best items))
      ∧ (∀ x, x ∈ after → key x ≤ key (max_from key best items)).
Proof.
  revert best. induction items as [|x items IH]; intros best; simpl.
  - left. split; [done|]. by intros ? ?%elem_of_nil.
  - destruct (Z.ltb_spec (key best) (key x)) as [Hlt|Hge].
    + destruct (IH x) as [[Heq Hall]|(b & a & Hitems & Hbest & Hb & Ha)].
      * right. exists [], items. rewrite Heq. by repeat split; try set_solver.
      * right. exists (x :: b), a. split; [simpl; by rewrite <- Hitems|].
        split; [lia|]. split; [|done].
        intros y [->|Hy]%elem_of_cons; [done|auto].
    + destruct (IH best) as [[Heq Hall]|(b & a & Hitems & Hbest & Hb & Ha)].
      * left. split; [done|]. intros y [->|Hy]%elem_of_cons; [done|auto].
      * right. exists (x :: b), a. split; [simpl; by rewrite <- Hitems|].
        split; [done|]. split; [|done].
        intros y [->|Hy]%elem_of_cons; [lia|auto].
Qed.

(** X22. The issue the report names as most upvoted. For a week with
    at least one issue it is one of the week's issues, no issue of the
    week has a greater count (an unset count being read as 0), and among
    the issues with that greatest count it is the first in the order of
    the query: every issue before it has a strictly smaller count. *)
Theorem top_issue_is_first_maximum recent :
  recent ≠ [] →
  ∃ before top after,
    top_issue recent = Ok top
    ∧ recent = before ++ top :: after
    ∧ (∀ row, row ∈ before →
         or_zero (upvote_count row.2) < or_zero (upvote_count top.2))
    ∧ (∀ row, row ∈ after →
         or_zero (upvote_count row.2) ≤ or_zero (upvote_count top.2)).
Proof.
  destruct recent as [|row rest]; [done|]. intros _. unfold top_issue.
  destruct (max_from_spec (λ r : Z * Issue, or_zero (upvote_count r.2)) rest row)
    as [[Heq Hall]|(b & a & Hitems & Hbest & Hb & Ha)].
  - exists [], row, rest. rewrite Heq. split; [done|]. split; [done|].
    split; [by intros ? ?%elem_of_nil|done].
  - eexists (row :: b), _, a. split; [done|].
    split; [simpl; by rewrite <- Hitems|]. split; [|done].
    intros y [->|Hy]%elem_of_cons; [done|auto].
Qed.

(** X23. [generate_report] always answers 200 with a report text, whatever
    the text service does. With no issue in the week the text is the fixed
    sentence and the service is not called. Otherwise the service is called
    once, with the prompt built from the week's total, breakdown and top
    issue: its answer, stripped, is the report, and when it raises, the
    report is the fixed failure sentence and the error is logged. *)
Theorem generate_report_always_answers (svc : Services) format_summary recent t :
  ∃ text t',
    generate_report svc format_summary recent t
    = (Ok (JsonResponse 200 (JDict [("report", JStr text)])), t')
    ∧ match top_issue recent with
      | Raise _ =>
          text = "No new issues reported in the last 7 days" ∧ t' = t
      | Ok top =>
          let prompt :=
            report_prompt (format_summary (length recent)
                                          (issues_by_cat recent) top) in
          match gemini_generate svc prompt with
          | Ok answer =>
              text = py_strip answer ∧ t' = t ++ [CallClassifier prompt]
          | Raise e =>
              text = report_failure
              ∧ t' = t ++ [CallClassifier prompt;
                           LogError ("Gemini API error (report generation): "
                                     +:+ exn_message e)]
          end
      end.
Proof.
  unfold generate_report. destruct recent as [|row rest].
  - by eexists _, _.
  - cbn [list_truthy negb top_issue].
    unfold generate_weekly_report, try_except, call_classifier, emit, lift,
      mbind, eff_bind, mret, eff_ret.
    cbn zeta.
    destruct (gemini_generate svc _) as [answer|e];
      eexists _, _; (split; [reflexivity|]); [done|].
    split; [done|]. by rewrite <- app_assoc.
Qed.
End WeeklyReport.

(** ** The retention sweep ([delete_old_issues], Version 2) *)

Section Retention.
Local Open Scope Z_scope.
Implicit Types (d : Db) (expired : Z * Issue → bool).

Lemma delete_issues_spec (l : list (Z * Issue)) d :
  let d' := foldl (λ d row, delete_issue row.1 d) d l in
  users d' = users d ∧ notifications d' = notifications d
  ∧ (∀ j i, issues d' !! j = Some i ↔ issues d !! j = Some i ∧ j ∉ l.*1)
  ∧ (∀ k v, upvotes d' !! k = Some v
            ↔ upvotes d !! k = Some v ∧ issue_id v ∉ l.*1).
Proof.
  revert d. induction l as [|row l IH]; intros d; simpl.
  - repeat split; try tauto; by intros ?%elem_of_nil.
  - destruct (IH (delete_issue row.1 d)) as (Hu & Hn & Hi & Hv).
    split; [done|]. split; [done|]. split.
    + intros j i. rewrite Hi. simpl.
      rewrite lookup_delete_Some, not_elem_of_cons. intuition congruence.
    + intros k v. rewrite Hv. simpl.
      rewrite map_lookup_filter_Some, not_elem_of_cons. simpl. intuition congruence.
Qed.

Lemma delete_old_issues_fold expired d :
  delete_old_issues expired d
  = foldl (λ d row, delete_issue row.1 d) d
          (filter (λ row, expired row = true) (map_to_list (issues d))).
Proof.
  unfold delete_old_issues. by destruct (filter _ (map_to_list (issues d))).
Qed.

Lemma expired_keys expired d j :
  j ∈ (filter (λ row, expired row = true) (map_to_list (issues d))).*1
  ↔ ∃ i, issues d !! j = Some i ∧ expired (j, i) = true.
Proof.
  rewrite list_elem_of_fmap. split.
  - intros ([j' i] & -> & [He Hin%elem_of_map_to_list]%list_elem_of_filter).
    by exists i.
  - intros (i & Hi & He). exists (j, i). split; [done|].
    apply list_elem_of_filter. split; [done|]. by apply elem_of_map_to_list.
Qed.

(** What the sweep leaves in the tables. *)
Lemma delete_old_issues_spec expired d :
  let d' := delete_old_issues expired d in
  users d' = users d ∧ notifications d' = notifications d
  ∧ (∀ j i, issues d' !! j = Some i
            ↔ issues d !! j = Some i ∧ expired (j, i) = false)
  ∧ (∀ k v, upvotes d' !! k = Some v
            ↔ upvotes d !! k = Some v
              ∧ ∀ i, issues d !! issue_id v = Some i →
                     expired (issue_id v, i) = false).
Proof.
  rewrite delete_old_issues_fold.
  destruct (delete_issues_spec
              (filter (λ row, expired row = true) (map_to_list (issues d))) d)
    as (Hu & Hn & Hi & Hv).
  split; [done|]. split; [done|]. split.
  - intros j i. rewrite Hi, expired_keys. split.
    + intros [Hj Hnot]. split; [done|].
      destruct (expired (j, i)) eqn:He; [|done]. exfalso. apply Hnot. eauto.
    + intros [Hj He]. split; [done|]. intros (i' & Hj' & He'). congruence.
  - intros k v. rewrite Hv, expired_keys. split.
    + intros [Hk Hnot]. split; [done|]. intros i Hi'.
      destruct (expired (issue_id v, i)) eqn:He; [|done]. exfalso. apply Hnot.
      eauto.
    + intros [Hk He]. split; [done|]. intros (i & Hi' & He').
      rewrite (He i Hi') in He'. done.
Qed.

(** X24. The retention sweep of Version 2 removes exactly the expired
    issues and, with each of them, the Upvote rows that refer to it. An
    issue is stored afterwards exactly when it was stored before and is
    not expired, with its columns unchanged; an Upvote row is stored
    afterwards exactly when it was stored before and its issue is not an
    expired one; users, with the points they earned from the deleted
    issues, and notifications stay as they were. *)
Theorem delete_old_issues_cascades expired d :
  users (delete_old_issues expired d) = users d
  ∧ notifications (delete_old_issues expired d) = notifications d
  ∧ issues (delete_old_issues expired d)
    = filter (λ row, expired row = false) (issues d)
  ∧ (∀ k v, upvotes (delete_old_issues expired d) !! k = Some v
            ↔ upvotes d !! k = Some v
              ∧ ∀ i, issues d !! issue_id v = Some i →
                     expired (issue_id v, i) = false).
Proof.
  destruct (delete_old_issues_spec expired d) as (Hu & Hn & Hi & Hv).
  split; [done|]. split; [done|]. split; [|done].
  apply map_eq. intros j. apply option_eq. intros i.
  by rewrite Hi, map_lookup_filter_Some.
Qed.

(** X25. The retention sweep keeps the vote tables consistent: when
    every Upvote row refers to a stored issue, every stored count equals
    the number of rows of its issue and no user holds two rows for one
    issue, the same holds after the sweep. *)
Theorem delete_old_issues_keeps_votes_consistent expired d :
  consistent_votes d → consistent_votes (delete_old_issues expired d).
Proof.
  intros (Hrefer & Hcount & Hsingle).
  destruct (delete_old_issues_spec expired d) as (_ & _ & Hi & Hv).
  split; [|split].
  - intros k v [Hk He]%Hv.
    destruct (Hrefer k v Hk) as [i Hissue]. exists i.
    apply Hi. split; [done|]. by apply He.
  - intros iid issue [Hissue He]%Hi.
    rewrite (Hcount iid issue Hissue). unfold vote_records, votes_on.
    do 2 f_equal. apply map_eq. intros k. apply option_eq. intros v.
    rewrite !map_lookup_filter_Some, Hv. simpl. split.
    + intros [Hk Hiid]. split; [|done]. split; [done|].
      intros i. rewrite Hiid, Hissue. by intros [= <-].
    + by intros [[Hk _] Hiid].
  - intros user iid. etrans; [|apply (Hsingle user iid)].
    apply map_subseteq_size. unfold votes_of.
    apply map_subseteq_spec. intros k v.
    rewrite !map_lookup_filter_Some, Hv. tauto.
Qed.
End Retention.

(** ** The home page, the report and the sweep on the example data *)

Lemma index_lists_every_issue_witness :
  ∃ issue,
    issues Examples.voted_db !! 7%Z = Some issue
    ∧ length (issues_data Examples.voted_db (Some 2%Z))
      = size (issues Examples.voted_db)
    ∧ ∃ datum,
        filter (λ x, datum_id x = 7%Z) (issues_data Examples.voted_db (Some 2%Z))
        = [datum]
        ∧ datum_upvotes datum = or_zero (upvote_count issue)
        ∧ (datum_user_has_voted datum = true
           ↔ ∃ user, Some 2%Z = Some user
                     ∧ is_Some (existing_upvote Examples.voted_db user 7)).
Proof.
  eexists. split; [reflexivity|].
  edestruct (index_lists_every_issue Examples.voted_db (Some 2%Z) 7)
    as (Hlen & _ & datum & Hf & _ & _ & Hup & Hvoted); [reflexivity|].
  split; [exact Hlen|]. exists datum.
  split; [exact Hf|split; [exact Hup|exact Hvoted]].
Defined.

Lemma index_reflects_upvote_witness :
  (size (votes_of Examples.voted_db 2 7) ≤ 1)%nat
  ∧ ∃ d', upvote Examples.voted_db 2 7 = Ok (d', upvote_response 0 false)
          ∧ ∃ datum,
              filter (λ x, datum_id x = 7%Z) (issues_data d' (Some 2%Z)) = [datum]
              ∧ datum_upvotes datum = 0%Z
              ∧ datum_user_has_voted datum = false.
Proof.
  assert ((size (votes_of Examples.voted_db 2 7) ≤ 1)%nat) as Hone
    by (vm_compute; lia).
  split; [exact Hone|]. eexists. split; [reflexivity|].
  exact (index_reflects_upvote Examples.voted_db 2 7 _ 0 false Hone eq_refl).
Defined.

Lemma top_issue_is_first_maximum_witness :
  Samples.week ≠ []
  ∧ ∃ before top after,
      top_issue Samples.week = Ok top
      ∧ Samples.week = before ++ top :: after
      ∧ (∀ row, row ∈ before →
           (or_zero (upvote_count row.2) < or_zero (upvote_count top.2))%Z)
      ∧ (∀ row, row ∈ after →
           (or_zero (upvote_count row.2) ≤ or_zero (upvote_count top.2))%Z).
Proof.
  assert (Samples.week ≠ []) as Hweek by discriminate.
  split; [exact Hweek|]. exact (top_issue_is_first_maximum Samples.week Hweek).
Defined.

Lemma delete_old_issues_keeps_votes_consistent_witness :
  consistent_votes Examples.voted_db
  ∧ consistent_votes (delete_old_issues (λ _, true) Examples.voted_db).
Proof.
  split; [exact voted_db_consistent|].
  exact (delete_old_issues_keeps_votes_consistent (λ _, true) Examples.voted_db
           voted_db_consistent).
Defined.
